(** * ts-isolate: the edit applier of [src/ts_isolate.ts]

    A shallow embedding of [applyTextChanges] (the span edit applier, the
    rewriting of dynamic [import(..).T] type references and the
    consolidation of the imports it asks for) and of
    [genCodeFixesFromProject], followed by the properties of the
    specification that concern them.

    JavaScript strings are sequences of UTF-16 code units; offsets of a
    [TextChange] and of [String.prototype.substring] count code units.  A
    string is therefore a list of code units, a code unit a number. *)

From Stdlib Require Import ZArith NArith List Bool Lia Ascii String.
Import ListNotations.
Open Scope Z_scope.

(** ** Strings *)

Definition char := N.
Definition jsstring := list char.

Definition ch (a : ascii) : char := N_of_ascii a.
Definition js (s : string) : jsstring := map ch (list_ascii_of_string s).

Definition dquote : char := 34%N.
Definition newline : char := 10%N.

Definition strlen (s : jsstring) : Z := Z.of_nat (List.length s).

Fixpoint str_eqb (a b : jsstring) : bool :=
  match a, b with
  | [], [] => true
  | x :: a', y :: b' => N.eqb x y && str_eqb a' b'
  | _, _ => false
  end.

(** [String.prototype.substring(indexStart, indexEnd)]: both arguments are
    clamped to [0, length] and swapped when the first is the larger. *)
Definition clamp (n len : Z) : Z := Z.min (Z.max n 0) len.

Definition substring (s : jsstring) (indexStart indexEnd : Z) : jsstring :=
  let len := strlen s in
  let finalStart := clamp indexStart len in
  let finalEnd := clamp indexEnd len in
  let from := Z.min finalStart finalEnd in
  let to := Z.max finalStart finalEnd in
  firstn (Z.to_nat (to - from)) (skipn (Z.to_nat from) s).

(** [substring(indexStart)]: a missing end is the length of the string. *)
Definition substringFrom (s : jsstring) (indexStart : Z) : jsstring :=
  substring s indexStart (strlen s).

(** [Array.prototype.join] on strings. *)
Fixpoint join (sep : jsstring) (l : list jsstring) : jsstring :=
  match l with
  | [] => []
  | [x] => x
  | x :: rest => x ++ sep ++ join sep rest
  end.

(** ** The data of an edit (TypeScript's [TextChange]) *)

Record TextSpan := { start : Z; length : Z }.
Record TextChange := { span : TextSpan; newText : jsstring }.

Definition mkChange (s l : Z) (t : jsstring) : TextChange :=
  {| span := {| start := s; length := l |}; newText := t |}.

Definition spanEnd (tc : TextChange) : Z := start (span tc) + length (span tc).

(** ** Regular expressions

    The patterns of the file are sequences of literal characters,
    character classes, word boundaries, one optional literal group and
    captured greedy repetitions of a character class.  [matchAtoms] is the
    backtracking matcher of ECMAScript restricted to these forms: a greedy
    repetition first tries to take one more character and falls back to
    the rest of the pattern when that fails. *)

Inductive atom :=
| WordBoundary                        (* \b *)
| Chr (c : char)                      (* a literal character *)
| Class (cls : char -> bool)          (* [cls], one character *)
| CapturePlus (cls : char -> bool)    (* ([cls]+), greedy *)
| OptGroup (lit : jsstring).          (* (lit)?, greedy *)

(** [\w] without the [u] and [i] flags: ASCII letters, digits, underscore. *)
Definition isWordChar (c : char) : bool :=
  ((65 <=? c) && (c <=? 90) || (97 <=? c) && (c <=? 122)
   || (48 <=? c) && (c <=? 57) || (c =? 95))%N.

Definition isWordBoundary (prev : option char) (s : jsstring) : bool :=
  xorb (match prev with Some c => isWordChar c | None => false end)
       (match s with c :: _ => isWordChar c | [] => false end).

(** A match gives the list of captures and the number of code units it
    consumed; a continuation is the rest of a pattern, waiting for the code
    unit before the current position and for what is left of the subject. *)
Definition matched : Type := list jsstring * nat.
Definition continuation : Type := option char -> jsstring -> option matched.

Definition consumed (k : nat) (res : option matched) : option matched :=
  match res with
  | Some (caps, n) => Some (caps, (k + n)%nat)
  | None => None
  end.

Definition captured (c : jsstring) (res : option matched) : option matched :=
  match res with
  | Some (caps, n) => Some (c :: caps, n)
  | None => None
  end.

(** [([cls]+)] followed by [k]; [taken] is what the repetition holds. *)
Fixpoint plusLoop (cls : char -> bool) (k : continuation)
         (taken : jsstring) (s : jsstring) : option matched :=
  match s with
  | c :: s' =>
      if cls c then
        match plusLoop cls k (taken ++ [c]) s' with
        | Some res => Some res
        | None =>
            captured (taken ++ [c])
              (consumed (List.length taken + 1) (k (Some c) s'))
        end
      else None
  | [] => None
  end.

(** The literal text [lit] followed by [k]. *)
Fixpoint litLoop (lit : jsstring) (k : continuation)
         (prev : option char) (s : jsstring) : option matched :=
  match lit with
  | [] => k prev s
  | c :: lit' =>
      match s with
      | c' :: s' =>
          if N.eqb c c' then consumed 1 (litLoop lit' k (Some c') s') else None
      | [] => None
      end
  end.

Fixpoint matchAtoms (r : list atom) (prev : option char) (s : jsstring)
  : option matched :=
  match r with
  | [] => Some ([], 0%nat)
  | WordBoundary :: r' =>
      if isWordBoundary prev s then matchAtoms r' prev s else None
  | Chr c :: r' =>
      match s with
      | c' :: s' =>
          if N.eqb c c' then consumed 1 (matchAtoms r' (Some c') s') else None
      | [] => None
      end
  | Class cls :: r' =>
      match s with
      | c' :: s' =>
          if cls c' then consumed 1 (matchAtoms r' (Some c') s') else None
      | [] => None
      end
  | CapturePlus cls :: r' => plusLoop cls (matchAtoms r') [] s
  | OptGroup lit :: r' =>
      match litLoop lit (matchAtoms r') prev s with
      | Some res => captured lit (Some res)
      | None => captured [] (matchAtoms r' prev s)
      end
  end.

(** A match object: [match.index], [match[0]] and the captures. *)
Record RegExpMatch := {
  index : nat;
  matchText : jsstring;
  captures : list jsstring
}.

(** The search loop of RegExpBuiltinExec, from position [pos] of the
    subject ([s] is what is left of it, [prev] the code unit before). *)
Fixpoint search (r : list atom) (prev : option char) (s : jsstring) (pos : nat)
  : option RegExpMatch :=
  match matchAtoms r prev s with
  | Some (caps, n) =>
      Some {| index := pos; matchText := firstn n s; captures := caps |}
  | None =>
      match s with
      | c :: s' => search r (Some c) s' (S pos)
      | [] => None
      end
  end.

Definition charBefore (s : jsstring) (i : nat) : option char :=
  match i with
  | O => None
  | S j => nth_error s j
  end.

(** [RegExp.prototype.exec] of a regular expression with the [g] flag: the
    search starts at [lastIndex]; the second component is the new
    [lastIndex] (the end of the match, or 0 when there is none). *)
Definition exec (r : list atom) (s : jsstring) (lastIndex : nat)
  : option RegExpMatch * nat :=
  if (List.length s <? lastIndex)%nat then (None, 0%nat)
  else
    match search r (charBefore s lastIndex) (skipn lastIndex s) lastIndex with
    | Some m => (Some m, (index m + List.length (matchText m))%nat)
    | None => (None, 0%nat)
    end.

(** The module-level constant [dynamicTypeRegex], written here with Q for
    the double-quote character:
    [/\bimport\(Q([^Q]+)Q\)\.([A-Za-z0-9_]+)\b/g]. *)
Definition notDquote (c : char) : bool := negb (N.eqb c dquote).

Definition dynamicTypeRegex : list atom :=
  [WordBoundary] ++ map Chr (js "import(") ++ [Chr dquote]
  ++ [CapturePlus notDquote]
  ++ [Chr dquote] ++ map Chr (js ").")
  ++ [CapturePlus isWordChar]
  ++ [WordBoundary].

(** The pattern of the cleanup pass:
    [/import \{( type)? JSX \} from 'react\/jsx-runtime';\n/g]. *)
Definition jsxImportRegex : list atom :=
  map Chr (js "import {") ++ [OptGroup (js " type")]
  ++ map Chr (js " JSX } from 'react/jsx-runtime';") ++ [Chr newline].

(** The loop shared by [String.prototype.matchAll] and by
    [String.prototype.replace] with a global pattern: [exec] is called
    until it finds nothing; after an empty match [lastIndex] is advanced by
    one.  Every round moves [lastIndex] forward, so [length s + 1] rounds
    are enough (see [execAll_fuel]). *)
Fixpoint execAll (fuel : nat) (r : list atom) (s : jsstring) (lastIndex : nat)
  : list RegExpMatch :=
  match fuel with
  | O => []
  | S fuel' =>
      match exec r s lastIndex with
      | (Some m, thisIndex) =>
          m :: execAll fuel' r s
                 (match matchText m with [] => S thisIndex | _ => thisIndex end)
      | (None, _) => []
      end
  end.

Definition allMatches (r : list atom) (s : jsstring) (lastIndex : nat)
  : list RegExpMatch :=
  execAll (S (List.length s)) r s lastIndex.

(** [s.replace(r, replacement)] for a global [r] and a replacement without
    dollar patterns: the text between the matches is kept. *)
Fixpoint replaceMatches (s : jsstring) (nextSourcePosition : nat)
         (ms : list RegExpMatch) (replacement : jsstring) : jsstring :=
  match ms with
  | [] => skipn nextSourcePosition s
  | m :: ms' =>
      firstn (index m - nextSourcePosition) (skipn nextSourcePosition s)
      ++ replacement
      ++ replaceMatches s (index m + List.length (matchText m)) ms' replacement
  end.

Definition replace (s : jsstring) (r : list atom) (replacement : jsstring)
  : jsstring :=
  replaceMatches s 0 (allMatches r s 0) replacement.

(** ** Effects

    [dynamicTypeRegex] is one object for the whole module and carries the
    mutable [lastIndex] that [test] reads and writes; an [assert] that
    fails throws.  A computation takes the current [lastIndex] and gives
    back an outcome and the new [lastIndex]. *)

(** node:assert throws an [AssertionError]; [assert.fail(message)] carries
    the given message, the message [assert(value)] makes up is left out. *)
Inductive exn :=
| AssertionError (message : option jsstring).

Inductive outcome (A : Type) :=
| Returned (a : A)
| Thrown (e : exn).
Arguments Returned {A} a.
Arguments Thrown {A} e.

Definition M (A : Type) : Type := nat -> outcome A * nat.

Definition ret {A} (a : A) : M A := fun li => (Returned a, li).
Definition throw {A} (e : exn) : M A := fun li => (Thrown e, li).
Definition bind {A B} (m : M A) (k : A -> M B) : M B :=
  fun li =>
    match m li with
    | (Returned a, li') => k a li'
    | (Thrown e, li') => (Thrown e, li')
    end.

Notation "x <- m ;; k" := (bind m (fun x => k))
  (at level 61, m at next level, right associativity).
Notation "' pat <- m ;; k" := (bind m (fun x => match x with pat => k end))
  (at level 61, pat pattern, m at next level, right associativity).

(** [assert(value)] of node:assert. *)
Definition assert (value : bool) : M unit :=
  if value then ret tt else throw (AssertionError None).

(** [dynamicTypeRegex.test(s)] *)
Definition test (r : list atom) (s : jsstring) : M bool :=
  fun lastIndex =>
    match exec r s lastIndex with
    | (Some _, li') => (Returned true, li')
    | (None, li') => (Returned false, li')
    end.

(** [s.matchAll(dynamicTypeRegex)]: the iteration runs on a copy of the
    pattern that starts from the [lastIndex] of the original and leaves the
    original alone. *)
Definition matchAll (s : jsstring) (r : list atom) : M (list RegExpMatch) :=
  fun lastIndex => (Returned (allMatches r s lastIndex), lastIndex).

Fixpoint foldM {A B} (f : A -> B -> M A) (l : list B) (a : A) : M A :=
  match l with
  | [] => ret a
  | b :: l' => a' <- f a b ;; foldM f l' a'
  end.

(** ** The imports to add: [Map<string, Set<string>>]

    A [Map] and a [Set] iterate in insertion order, and setting a key or
    adding an element that is already there keeps its place: both are
    lists without repetition, new entries going to the end. *)

Definition StringSet := list jsstring.
Definition ImportMap := list (jsstring * StringSet).

Fixpoint set_has (s : StringSet) (x : jsstring) : bool :=
  match s with
  | [] => false
  | y :: s' => str_eqb y x || set_has s' x
  end.

Definition set_add (s : StringSet) (x : jsstring) : StringSet :=
  if set_has s x then s else s ++ [x].

Fixpoint map_has (m : ImportMap) (k : jsstring) : bool :=
  match m with
  | [] => false
  | (k', _) :: m' => str_eqb k' k || map_has m' k
  end.

Fixpoint map_get (m : ImportMap) (k : jsstring) : option StringSet :=
  match m with
  | [] => None
  | (k', v) :: m' => if str_eqb k' k then Some v else map_get m' k
  end.

Fixpoint map_set (m : ImportMap) (k : jsstring) (v : StringSet) : ImportMap :=
  match m with
  | [] => [(k, v)]
  | (k', v') :: m' =>
      if str_eqb k' k then (k', v) :: m' else (k', v') :: map_set m' k v
  end.

(** [importsToAddByModule.get(module)!.add(type)]: the set stored under
    [module] is changed in place. *)
Definition map_add_to (m : ImportMap) (k x : jsstring) : ImportMap :=
  match map_get m k with
  | Some v => map_set m k (set_add v x)
  | None => m
  end.

Definition truthy (s : jsstring) : bool :=
  match s with [] => false | _ => true end.

(** The body of [for (const match of newText.matchAll(dynamicTypeRegex))]:
    [const [matchText, module, type] = match] reads the two captures. *)
Definition recordMatch (acc : ImportMap * list TextChange) (m : RegExpMatch)
  : M (ImportMap * list TextChange) :=
  let '(importsToAddByModule, changes) := acc in
  let module := nth 0 (captures m) [] in
  let type := nth 1 (captures m) [] in
  _ <- assert (truthy module && truthy type) ;;
  let importsToAddByModule :=
    if negb (map_has importsToAddByModule module)
    then map_set importsToAddByModule module []
    else importsToAddByModule in
  let importsToAddByModule := map_add_to importsToAddByModule module type in
  ret (importsToAddByModule,
       changes ++ [ {| span := {| start := Z.of_nat (index m);
                                  length := strlen (matchText m) |};
                       newText := type |} ]).

(** [`import {${[...types].join(', ')}} from '${module}';`] *)
Definition importLine (entry : jsstring * StringSet) : jsstring :=
  let '(module, types) := entry in
  js "import {" ++ join (js ", ") types ++ js "} from '" ++ module ++ js "';".

Definition importBlock (importsToAddByModule : ImportMap) : jsstring :=
  [newline] ++ join [newline] (map importLine importsToAddByModule).

(** [Array.prototype.at(-1)] *)
Fixpoint at_last {A} (l : list A) : option A :=
  match l with
  | [] => None
  | [x] => Some x
  | _ :: l' => at_last l'
  end.

(** ** What the TypeScript parser gives

    [ts.createSourceFile] belongs to the TypeScript library.  Of the tree it
    builds the code reads the top-level [statements], the [kind] of each and
    the [end] offset of the last import declaration. *)

Inductive SyntaxKind := ImportDeclaration | OtherSyntaxKind.

Definition isImportDeclaration (k : SyntaxKind) : bool :=
  match k with ImportDeclaration => true | OtherSyntaxKind => false end.

Record Statement := { kind : SyntaxKind; pos : Z; end_ : Z }.

Section ApplyTextChanges.

(** [ts.createSourceFile('_.tsx', fileText, ts.ScriptTarget.Latest, true)
    .statements] *)
Variable createSourceFile : jsstring -> list Statement.

(** One round of the loop over [textChanges]; [recur] is the function
    itself, for the call on the replacement text. *)
Definition applyOne
    (recur : jsstring -> list TextChange -> bool -> M jsstring)
    (fixupTypes : bool) (st : jsstring * ImportMap) (tc : TextChange)
  : M (jsstring * ImportMap) :=
  let '(fileText, importsToAddByModule) := st in
  let start := start (span tc) in
  let length := length (span tc) in
  let newText := newText tc in
  let end' := start + length in
  '(updatedText, importsToAddByModule) <-
    (if fixupTypes then
       let oldText := substring fileText start end' in
       found <- test dynamicTypeRegex oldText ;;
       if negb found then
         ms <- matchAll newText dynamicTypeRegex ;;
         '(importsToAddByModule, changes) <-
           foldM recordMatch ms (importsToAddByModule, []) ;;
         updatedText <- recur newText changes false ;;
         ret (updatedText, importsToAddByModule)
       else ret (newText, importsToAddByModule)
     else ret (newText, importsToAddByModule)) ;;
  ret (substring fileText 0 start ++ updatedText ++ substringFrom fileText end',
       importsToAddByModule).

(** The loop of [applyTextChanges]: it runs from the last element of
    [textChanges] to the first, on the text and the map of imports. *)
Definition editLoop
    (recur : jsstring -> list TextChange -> bool -> M jsstring)
    (fixupTypes : bool) (fileText : jsstring) (textChanges : list TextChange)
  : M (jsstring * ImportMap) :=
  foldM (applyOne recur fixupTypes) (rev textChanges) (fileText, []).

(** What follows the loop: the cleanup of the JSX import and the insertion
    of the merged imports after the last import declaration. *)
Definition consolidate (fixupTypes : bool) (st : jsstring * ImportMap)
  : M jsstring :=
  let '(fileText, importsToAddByModule) := st in
  let fileText :=
    if fixupTypes then replace fileText jsxImportRegex [] else fileText in
  if (0 <? List.length importsToAddByModule)%nat then
    let importStatements :=
      filter (fun statement => isImportDeclaration (kind statement))
             (createSourceFile fileText) in
    match at_last importStatements with
    | None => throw (AssertionError None)
    | Some lastImportStatement =>
        let insertionPosition := end_ lastImportStatement in
        ret (substring fileText 0 insertionPosition
             ++ importBlock importsToAddByModule
             ++ substringFrom fileText insertionPosition)
    end
  else ret fileText.

Definition applyTextChangesBody
    (recur : jsstring -> list TextChange -> bool -> M jsstring)
    (fileText : jsstring) (textChanges : list TextChange) (fixupTypes : bool)
  : M jsstring :=
  st <- editLoop recur fixupTypes fileText textChanges ;;
  consolidate fixupTypes st.

(** The function calls itself once, on the replacement text and with
    [fixupTypes] off, and a call with [fixupTypes] off calls nothing: two
    levels tie the knot (see [applyTextChanges_unfold]). *)
Definition applyTextChangesInner
  : jsstring -> list TextChange -> bool -> M jsstring :=
  applyTextChangesBody (fun newText _ _ => ret newText).

Definition applyTextChanges
  : jsstring -> list TextChange -> bool -> M jsstring :=
  applyTextChangesBody applyTextChangesInner.

End ApplyTextChanges.

(** ** The fix discovery loop: [genCodeFixesFromProject] *)

Record SourceFile := {
  fileName : jsstring;
  isDeclarationFile : bool;
  text : jsstring
}.

Record Program := {
  getSourceFiles : list SourceFile;
  getCurrentDirectory : jsstring
}.

(** An element of [codefix.changes] and what the generator yields. *)
Record FileTextChanges := { textChanges : list TextChange }.
Record CodeFix := { fixFileName : jsstring; fixTextChanges : list TextChange }.

(** [/[\\/]node_modules[\\/]/], a pattern without the [g] flag: [test]
    searches from the start and keeps no state. *)
Definition isSeparator (c : char) : bool := (N.eqb c 92 || N.eqb c 47)%N.

Definition nodeModulesRegex : list atom :=
  [Class isSeparator] ++ map Chr (js "node_modules") ++ [Class isSeparator].

Definition testOnce (r : list atom) (s : jsstring) : bool :=
  match search r None s 0 with Some _ => true | None => false end.

Section FixDiscovery.

(** [path.relative(from, to)] of node:path and the language service. *)
Variable relative : jsstring -> jsstring -> jsstring.
Variable getProgram : option Program.
Variable getCombinedCodeFix : jsstring -> list FileTextChanges.

(** A generator that is run to its end gives the values it yields and, when
    it stops by throwing, the exception. *)
Fixpoint genLoop (program : Program) (files : option (list jsstring))
         (sourceFiles : list SourceFile) : list CodeFix * option exn :=
  match sourceFiles with
  | [] => ([], None)
  | file :: rest =>
      if testOnce nodeModulesRegex (fileName file)
      then genLoop program files rest
      else if isDeclarationFile file
      then genLoop program files rest
      else
        let relativePath :=
          relative (getCurrentDirectory program) (fileName file) in
        if match files with
           | Some set => negb (set_has set relativePath)
           | None => false
           end
        then genLoop program files rest
        else
          let changes := getCombinedCodeFix relativePath in
          if (List.length changes =? 0)%nat
          then genLoop program files rest
          else if (1 <? List.length changes)%nat
          then ([], Some (AssertionError
                            (Some (js "Multiple fixes found for "
                                   ++ relativePath))))
          else
            match changes with
            | first :: _ =>
                let '(yielded, thrown) := genLoop program files rest in
                ({| fixFileName := relativePath;
                    fixTextChanges := textChanges first |} :: yielded,
                 thrown)
            | [] => genLoop program files rest
            end
  end.

Definition genCodeFixesFromProject (files : option (list jsstring))
  : list CodeFix * option exn :=
  match getProgram with
  | None => ([], Some (AssertionError None))
  | Some program => genLoop program files (getSourceFiles program)
  end.

End FixDiscovery.

(** ** The validation of the listed files: [validateFiles] *)

(** What a rejected promise carries: an exception of node:assert, or an
    error made with [new Error(message)]. *)
Inductive thrown :=
| Uncaught (e : exn)
| PlainError (message : jsstring).

Inductive settled (A : Type) :=
| Fulfilled (a : A)
| Rejected (t : thrown).
Arguments Fulfilled {A} a.
Arguments Rejected {A} t.

(** [new Set(iterable)] *)
Definition newSet (l : list jsstring) : StringSet := fold_left set_add l [].

Section ValidateFiles.

(** Whether [fs.access(file)] fulfils. *)
Variable access : jsstring -> bool.

(** [Promise.allSettled] keeps the order of the files; a result is
    fulfilled, with the file as its value, or rejected. *)
Definition validateFiles (files : list jsstring)
  : settled (StringSet * StringSet) :=
  let results := map (fun file => (access file, file)) files in
  let validFiles :=
    newSet (flat_map (fun result : bool * jsstring =>
                        if fst result then [snd result] else [])
                     results) in
  if (List.length validFiles =? 0)%nat
  then Rejected (PlainError (js "All provided files are invalid"))
  else
    let invalidFiles :=
      fold_left (fun invalidFiles file =>
                   if negb (set_has validFiles file)
                   then set_add invalidFiles file
                   else invalidFiles)
                files [] in
    Fulfilled (validFiles, invalidFiles).

End ValidateFiles.

(** ** The run over a project: [codefixProject]

    What is written to the console is left out.  The body of the task of a
    file runs at once up to its [await]: the calls of [applyTextChanges]
    follow each other in the order the fixes are yielded, on the one
    [lastIndex], and [fs.writeFile] is called before the task waits.  A
    run is the calls of [fs.writeFile], in order, and the rejection that is
    known before any of them ends: without one, the promise of the run is
    fulfilled when the writes are. *)

Record LanguageService := {
  getProgram : option Program;
  getCombinedCodeFix : jsstring -> list FileTextChanges
}.

(** [fs.writeFile(fileName, updatedText, {encoding: 'utf8'})] *)
Definition FileWrite : Type := jsstring * jsstring.

Record Run := {
  writes : list FileWrite;
  rejection : option thrown
}.

Definition writesOf (promises : list (settled (option FileWrite)))
  : list FileWrite :=
  flat_map (fun promise =>
              match promise with
              | Fulfilled (Some w) => [w]
              | _ => []
              end) promises.

(** [Promise.all] of promises that are settled already, or wait for a
    write: the first rejected one, in order, rejects it. *)
Fixpoint firstRejection {A} (promises : list (settled A)) : option thrown :=
  match promises with
  | [] => None
  | Rejected t :: _ => Some t
  | Fulfilled _ :: rest => firstRejection rest
  end.

Section CodefixProject.

Variable access : jsstring -> bool.
Variable relative : jsstring -> jsstring -> jsstring.
(** [createLanguageService(tsconfig)], which throws on a configuration
    that cannot be read, and [program.getSourceFile(fileName)]. *)
Variable createLanguageService : jsstring -> settled LanguageService.
Variable getSourceFile : Program -> jsstring -> option SourceFile.
Variable createSourceFile : jsstring -> list Statement.

(** The task of one file, up to its [await]. *)
Definition task (program : Program) (write : bool) (codeFix : CodeFix)
           (lastIndex : nat) : settled (option FileWrite) * nat :=
  let fileName := fixFileName codeFix in
  match getSourceFile program fileName with
  | None =>
      (Rejected (PlainError (js "File " ++ fileName
                             ++ js " not found in project")), lastIndex)
  | Some sourceFile =>
      match applyTextChanges createSourceFile (text sourceFile)
              (fixTextChanges codeFix) true lastIndex with
      | (Returned updatedText, lastIndex') =>
          (Fulfilled (if write then Some (fileName, updatedText) else None),
           lastIndex')
      | (Thrown e, lastIndex') => (Rejected (Uncaught e), lastIndex')
      end
  end.

Fixpoint tasks (program : Program) (write : bool) (fixes : list CodeFix)
         (lastIndex : nat) : list (settled (option FileWrite)) * nat :=
  match fixes with
  | [] => ([], lastIndex)
  | codeFix :: rest =>
      let '(promise, lastIndex) := task program write codeFix lastIndex in
      let '(promises, lastIndex) := tasks program write rest lastIndex in
      (promise :: promises, lastIndex)
  end.

Definition codefixProject (tsconfig : jsstring)
           (files : option (list jsstring)) (write : bool) (lastIndex : nat)
  : Run * nat :=
  match match files with
        | Some listed =>
            match validateFiles access listed with
            | Fulfilled (validFiles, _) => Fulfilled (Some validFiles)
            | Rejected t => Rejected t
            end
        | None => Fulfilled None
        end with
  | Rejected t => ({| writes := []; rejection := Some t |}, lastIndex)
  | Fulfilled files =>
      match createLanguageService tsconfig with
      | Rejected t => ({| writes := []; rejection := Some t |}, lastIndex)
      | Fulfilled languageService =>
          match getProgram languageService with
          | None =>
              ({| writes := [];
                  rejection := Some (Uncaught (AssertionError None)) |},
               lastIndex)
          | Some program =>
              let '(yielded, thrown) :=
                genCodeFixesFromProject relative (getProgram languageService)
                  (getCombinedCodeFix languageService)
                  (match files with
                   | Some files =>
                       Some (newSet
                               (map (relative (getCurrentDirectory program))
                                    files))
                   | None => None
                   end) in
              let '(promises, lastIndex) :=
                tasks program write yielded lastIndex in
              ({| writes := writesOf promises;
                  rejection := match thrown with
                               | Some e => Some (Uncaught e)
                               | None => firstRejection promises
                               end |},
               lastIndex)
          end
      end
  end.

(** [TsAnnotateCommand.execute] of [src/index.ts]: without [--file] the
    files are [null], without [--write] nothing is to be written. *)
Definition execute (tsconfig : jsstring) (file : option (list jsstring))
           (write : option bool) (lastIndex : nat) : Run * nat :=
  codefixProject tsconfig file
    (match write with Some w => w | None => false end) lastIndex.

End CodefixProject.

(** * The vocabulary of the properties *)

(** ** Splicing and reconstruction *)

(** With [fixupTypes] off, a round of the loop is the splice alone. *)
Definition splice (fileText : jsstring) (tc : TextChange) : jsstring :=
  substring fileText 0 (start (span tc))
  ++ newText tc ++ substringFrom fileText (spanEnd tc).

(** The text put together from the untouched gaps and the replacement
    texts, the edits taken in the order of the list, from offset [from]. *)
Fixpoint reconstruct (T : jsstring) (from : Z) (edits : list TextChange)
  : jsstring :=
  match edits with
  | [] => substringFrom T from
  | e :: es =>
      substring T from (start (span e)) ++ newText e
      ++ reconstruct T (spanEnd e) es
  end.

(** The edits are listed from left to right, each span ending at or before
    the start of the next, all of them between [from] and [len]. *)
Fixpoint ascendingDisjoint (from : Z) (edits : list TextChange) (len : Z)
  : Prop :=
  match edits with
  | [] => from <= len
  | e :: es =>
      from <= start (span e) /\ 0 <= length (span e)
      /\ ascendingDisjoint (spanEnd e) es len
  end.

(** The reading of the specification: spans inside the text that do not
    overlap pairwise, in any order, and the reconstruction taken in
    ascending order of their starts. *)
Definition disjointSpans (a b : TextChange) : bool :=
  (spanEnd a <=? start (span b)) || (spanEnd b <=? start (span a)).

Fixpoint pairwiseDisjoint (edits : list TextChange) : bool :=
  match edits with
  | [] => true
  | e :: es => forallb (disjointSpans e) es && pairwiseDisjoint es
  end.

Definition withinText (T : jsstring) (edits : list TextChange) : bool :=
  forallb (fun e => (0 <=? start (span e)) && (0 <=? length (span e))
                    && (spanEnd e <=? strlen T)) edits.

Fixpoint insertByStart (e : TextChange) (l : list TextChange)
  : list TextChange :=
  match l with
  | [] => [e]
  | x :: l' =>
      if start (span e) <? start (span x) then e :: l
      else x :: insertByStart e l'
  end.

Definition sortByStart (edits : list TextChange) : list TextChange :=
  fold_right insertByStart [] edits.

(** ** Matches *)

(** A continuation consumes no more than what is left of the subject. *)
Definition boundedBy (k : continuation) : Prop :=
  forall prev s caps n, k prev s = Some (caps, n) -> (n <= List.length s)%nat.

(** The captures a continuation returns satisfy [Q]. *)
Definition capturesSat (Q : list jsstring -> Prop) (k : continuation) : Prop :=
  forall prev s caps n, k prev s = Some (caps, n) -> Q caps.

(** The captures of a match follow the groups of the pattern, and a
    repetition of one or more never captures the empty string. *)
Fixpoint capturesOf (r : list atom) (caps : list jsstring) : Prop :=
  match r with
  | [] => caps = []
  | CapturePlus _ :: r' =>
      exists c caps', caps = c :: caps' /\ c <> [] /\ capturesOf r' caps'
  | OptGroup _ :: r' =>
      exists c caps', caps = c :: caps' /\ capturesOf r' caps'
  | _ :: r' => capturesOf r' caps
  end.

(** The code unit before the current position after the text [l] has been
    consumed. *)
Definition prevAfter (prev : option char) (l : jsstring) : option char :=
  fold_left (fun _ c => Some c) l prev.

(** The code unit before offset [i] of [s], where [prev] stands before
    [s]. *)
Definition charBeforeIn (prev : option char) (s : jsstring) (i : nat)
  : option char :=
  match i with
  | O => prev
  | S j => nth_error s j
  end.

(** No word character before the position; no character of the class
    at the head of the text. *)
Definition notWordBefore (prev : option char) : Prop :=
  match prev with Some c => isWordChar c = false | None => True end.

Definition notNext (cls : char -> bool) (s : jsstring) : Prop :=
  match s with c :: _ => cls c = false | [] => True end.

(** A match sits in the subject where its index says: the pattern matches
    there, with these captures and this length. *)
Definition matchIn (r : list atom) (s : jsstring) (m : RegExpMatch) : Prop :=
  matchAtoms r (charBefore s (index m)) (skipn (index m) s)
  = Some (captures m, List.length (matchText m))
  /\ matchText m = firstn (List.length (matchText m)) (skipn (index m) s).

(** The matches of the loop over [exec] come one after the other. *)
Fixpoint matchesFrom (from : nat) (ms : list RegExpMatch) (len : nat) : Prop :=
  match ms with
  | [] => True
  | m :: ms' =>
      (from <= index m)%nat
      /\ (index m + List.length (matchText m) <= len)%nat
      /\ matchesFrom (index m + List.length (matchText m)) ms' len
  end.

(** ** Dynamic references *)

(** The text of a dynamic reference to [type] of [module]. *)
Definition importOpen : jsstring := js "import(" ++ [dquote].
Definition moduleClose : jsstring := [dquote] ++ js ").".

Definition dynamicReference (module type : jsstring) : jsstring :=
  importOpen ++ module ++ moduleClose ++ type.

(** A dynamic reference stands at offset [i] of [s]: at a word boundary,
    the module path not empty and free of double quotes, the name made of
    word characters and not followed by one. *)
Definition dynamicReferenceAt (s : jsstring) (i : nat) (module type : jsstring)
  : Prop :=
  notWordBefore (charBefore s i)
  /\ module <> [] /\ forallb notDquote module = true
  /\ type <> [] /\ forallb isWordChar type = true
  /\ exists rest,
      skipn i s = dynamicReference module type ++ rest
      /\ notNext isWordChar rest.

Definition noDynamicReference (s : jsstring) : Prop :=
  forall i module type, ~ dynamicReferenceAt s i module type.

(** The two captures of a match, and the nested edit it asks for. *)
Definition moduleOf (m : RegExpMatch) : jsstring := nth 0 (captures m) [].
Definition typeOf (m : RegExpMatch) : jsstring := nth 1 (captures m) [].

Definition changeOf (m : RegExpMatch) : TextChange :=
  {| span := {| start := Z.of_nat (index m);
                length := strlen (matchText m) |};
     newText := typeOf m |}.

Definition wellCaptured (m : RegExpMatch) : Prop :=
  moduleOf m <> [] /\ typeOf m <> [].

(** What a replacement text is rewritten to: every match of
    [dynamicTypeRegex] gives way to its second capture. *)
Definition rewritten (newText : jsstring) : jsstring :=
  reconstruct newText 0 (map changeOf (allMatches dynamicTypeRegex newText 0)).

(** ** The map of imports *)

(** What the loop body does to the map for one match, and for all the
    matches of a replacement text. *)
Definition addImport (imports : ImportMap) (module type : jsstring)
  : ImportMap :=
  map_add_to
    (if negb (map_has imports module) then map_set imports module []
     else imports)
    module type.

Definition recordAll (imports : ImportMap) (ms : list RegExpMatch)
  : ImportMap :=
  fold_left (fun im m => addImport im (moduleOf m) (typeOf m)) ms imports.

(** A pair is in the map when its module has a set that holds its name. *)
Definition recorded (imports : ImportMap) (module type : jsstring) : Prop :=
  exists types, map_get imports module = Some types
                /\ set_has types type = true.

(** What is recorded depends on the matches through their two captures. *)
Definition capturedPair (m : RegExpMatch) : jsstring * jsstring :=
  (moduleOf m, typeOf m).

Definition recordPairs (imports : ImportMap)
           (pairs : list (jsstring * jsstring)) : ImportMap :=
  fold_left (fun im p => addImport im (fst p) (snd p)) pairs imports.

(** The elements of a list in the order of their first occurrence. *)
Fixpoint firstSeen (l : list jsstring) : list jsstring :=
  match l with
  | [] => []
  | x :: l' => x :: filter (fun y => negb (str_eqb x y)) (firstSeen l')
  end.

(** The names asked from [module], in the order they were asked. *)
Definition typesFor (module : jsstring) (pairs : list (jsstring * jsstring))
  : list jsstring :=
  map snd (filter (fun p => str_eqb (fst p) module) pairs).

(** ** After the loop *)

(** The line the cleanup pass removes, with or without [type]. *)
Definition jsxImportLine (typeOnly : bool) : jsstring :=
  js "import {" ++ (if typeOnly then js " type" else [])
  ++ js " JSX } from 'react/jsx-runtime';" ++ [newline].

Definition hasJsxImportLine (s : jsstring) : Prop :=
  exists before typeOnly after, s = before ++ jsxImportLine typeOnly ++ after.

(** The import declarations among the statements of a text. *)
Definition importStatementsOf
    (createSourceFile : jsstring -> list Statement) (fileText : jsstring)
  : list Statement :=
  filter (fun statement => isImportDeclaration (kind statement))
         (createSourceFile fileText).

(** The text the parser is given: the edited text after the cleanup. *)
Definition cleaned (fixupTypes : bool) (fileText : jsstring) : jsstring :=
  if fixupTypes then replace fileText jsxImportRegex [] else fileText.

(** ** The files of the fix discovery loop *)

Definition relativePathOf (relative : jsstring -> jsstring -> jsstring)
           (program : Program) (file : SourceFile) : jsstring :=
  relative (getCurrentDirectory program) (fileName file).

(** The files the loop asks a fix for. *)
Definition eligible (relative : jsstring -> jsstring -> jsstring)
           (program : Program) (files : option (list jsstring))
           (file : SourceFile) : Prop :=
  testOnce nodeModulesRegex (fileName file) = false
  /\ isDeclarationFile file = false
  /\ match files with
     | Some set => set_has set (relativePathOf relative program file) = true
     | None => True
     end.

(** ** Stand-ins for concrete runs *)

(** A stand-in for the parser: every non-empty line is one statement, an
    import declaration when it starts with the keyword; it ends where its
    line ends. *)
Fixpoint startsWith (s prefix : jsstring) : bool :=
  match prefix, s with
  | [], _ => true
  | p :: prefix', c :: s' => N.eqb p c && startsWith s' prefix'
  | _ :: _, [] => false
  end.

Fixpoint lineStatements (s : jsstring) (line : jsstring) (lineStart : Z)
  : list Statement :=
  let statement :=
    match line with
    | [] => []
    | _ => [ {| kind := if startsWith line (js "import ")
                        then ImportDeclaration else OtherSyntaxKind;
                pos := lineStart;
                end_ := lineStart + strlen line |} ]
    end in
  match s with
  | [] => statement
  | c :: s' =>
      if N.eqb c newline
      then statement ++ lineStatements s' [] (lineStart + strlen line + 1)
      else lineStatements s' (line ++ [c]) lineStart
  end.

Definition lineParser (fileText : jsstring) : list Statement :=
  lineStatements fileText [] 0.

(** A stand-in for [path.relative] and for the language service. *)
Fixpoint stripPrefix (prefix s : jsstring) : option jsstring :=
  match prefix, s with
  | [], _ => Some s
  | p :: prefix', c :: s' => if N.eqb p c then stripPrefix prefix' s' else None
  | _ :: _, [] => None
  end.

Definition sampleRelative (from to : jsstring) : jsstring :=
  match stripPrefix (from ++ js "/") to with
  | Some rest => rest
  | None => to
  end.

Definition sampleChange : FileTextChanges :=
  {| textChanges := [mkChange 0 0 (js ": number")] |}.

Definition sampleService (path : jsstring) : list FileTextChanges :=
  if str_eqb path (js "src/empty.ts") then []
  else if str_eqb path (js "src/twice.ts") then [sampleChange; sampleChange]
  else [sampleChange].

Definition sampleFile (name : string) : SourceFile :=
  {| fileName := js "/repo/" ++ js name; isDeclarationFile := false; text := [] |}.

Definition sampleProgram (sourceFiles : list SourceFile) : option Program :=
  Some {| getSourceFiles := sourceFiles; getCurrentDirectory := js "/repo" |}.

(** ** The texts of the examples *)

Definition dyn (module type : string) : jsstring :=
  dynamicReference (js module) (js type).

Definition lookupExample : jsstring :=
  js "const x: lookup(" ++ [dquote] ++ js "pkg/mod" ++ [dquote]
  ++ js ").Foo = y;".

Definition importExample : jsstring :=
  js "const x: " ++ dyn "pkg/mod" "Foo" ++ js " = y;".

Definition dynB : jsstring := dyn "a" "B".

Definition stateExampleText : jsstring :=
  js "import a from 'a';" ++ [newline] ++ js "const x: " ++ dynB
  ++ js " = f();".

Definition stateExampleEdits : list TextChange :=
  [mkChange 28 13 (dynB ++ js " | null")].

Definition stateExampleFirst : jsstring :=
  js "import a from 'a';" ++ [newline] ++ js "const x: " ++ dynB
  ++ js " | null = f();".

Definition stateExampleRewritten : jsstring :=
  js "import a from 'a';" ++ [newline] ++ js "const x: B | null = f();".

Definition suppressionExampleText : jsstring :=
  js "type P = " ++ dynB ++ js ";" ++ [newline]
  ++ js "type Q = " ++ dynB ++ js ";".

Definition suppressionExampleEdits : list TextChange :=
  [mkChange 9 13 (dynB ++ js " | null");
   mkChange 33 13 (dynB ++ js " | null")].

(** ** Edits and their undoing *)

(** The span lies inside the text. *)
Definition inRange (T : jsstring) (tc : TextChange) : Prop :=
  0 <= start (span tc) /\ 0 <= length (span tc) /\ spanEnd tc <= strlen T.

(** The edit that puts back what [tc] replaced in [T]. *)
Definition inverseChange (T : jsstring) (tc : TextChange) : TextChange :=
  mkChange (start (span tc)) (strlen (newText tc))
    (substring T (start (span tc)) (spanEnd tc)).

(** The net growth of a list of edits. *)
Fixpoint netGrowth (edits : list TextChange) : Z :=
  match edits with
  | [] => 0
  | e :: es => strlen (newText e) - length (span e) + netGrowth es
  end.

(** The edit with its replacement text rewritten, and the pairs its
    replacement text asks for. *)
Definition rewriteChange (tc : TextChange) : TextChange :=
  {| span := span tc; newText := rewritten (newText tc) |}.

Definition pairsOf (tc : TextChange) : list (jsstring * jsstring) :=
  map capturedPair (allMatches dynamicTypeRegex (newText tc) 0).

(** Where the loop leaves [lastIndex] when no old text has a match. *)
Definition leftAt (edits : list TextChange) (li : nat) : nat :=
  match edits with [] => li | _ :: _ => 0%nat end.

(** ** The files of the fix discovery loop, in full *)

(** The name has [node_modules] between two separators. *)
Definition inNodeModules (name : jsstring) : Prop :=
  exists before s1 s2 after,
    isSeparator s1 = true /\ isSeparator s2 = true
    /\ name = before ++ [s1] ++ js "node_modules" ++ [s2] ++ after.

(** The file gets as far as the request for a fix. *)
Definition reaches (relative : jsstring -> jsstring -> jsstring)
           (program : Program) (files : option (list jsstring))
           (file : SourceFile) : bool :=
  negb (testOnce nodeModulesRegex (fileName file))
  && negb (isDeclarationFile file)
  && match files with
     | Some set => set_has set (relativePathOf relative program file)
     | None => true
     end.

(** What the loop yields for a file whose fix has one change, and whether
    the fix has more than one. *)
Definition fixOf (relative : jsstring -> jsstring -> jsstring)
           (getCombinedCodeFix : jsstring -> list FileTextChanges)
           (program : Program) (file : SourceFile) : list CodeFix :=
  match getCombinedCodeFix (relativePathOf relative program file) with
  | [change] =>
      [ {| fixFileName := relativePathOf relative program file;
           fixTextChanges := textChanges change |} ]
  | _ => []
  end.

Definition tooMany (relative : jsstring -> jsstring -> jsstring)
           (getCombinedCodeFix : jsstring -> list FileTextChanges)
           (program : Program) (file : SourceFile) : bool :=
  (1 <? List.length
          (getCombinedCodeFix (relativePathOf relative program file)))%nat.

(** ** The run over a project *)

(** The fix is for a file the program knows. *)
Definition present (getSourceFile : Program -> jsstring -> option SourceFile)
           (program : Program) (codeFix : CodeFix) : bool :=
  match getSourceFile program (fixFileName codeFix) with
  | Some _ => true
  | None => false
  end.

(** Stand-ins for [fs.access], for [program.getSourceFile] and for the
    language service of a project of three files, one of them under
    [node_modules]. *)
Definition sampleAccess (file : jsstring) : bool :=
  negb (str_eqb file (js "/repo/src/gone.ts")).

Definition sampleGetSourceFile (program : Program) (name : jsstring)
  : option SourceFile :=
  find (fun file =>
          str_eqb (sampleRelative (getCurrentDirectory program) (fileName file))
                  name)
       (getSourceFiles program).

Definition sampleSourceFiles : list SourceFile :=
  [sampleFile "src/a.ts"; sampleFile "node_modules/m/index.ts";
   sampleFile "src/b.ts"].

Definition sampleLanguageService (tsconfig : jsstring)
  : settled LanguageService :=
  Fulfilled {| getProgram := sampleProgram sampleSourceFiles;
               getCombinedCodeFix := sampleService |}.

Definition twoLines : jsstring :=
  js "import a from 'a';" ++ [newline] ++ js "const x = f(), y = g();".

Definition twoEdits : list TextChange :=
  [mkChange 26 0 (js ": " ++ dyn "pkg/mod" "Foo");
   mkChange 35 0 (js ": " ++ dyn "pkg/mod" "Bar")].

(** * Properties *)

(** ** Substrings *)

Lemma strlen_nonneg (s : jsstring) : 0 <= strlen s.
Proof. unfold strlen. lia. Qed.

(** Resolve every [Z.min] and [Z.max] of the goal whose order [lia] sees. *)
Ltac minmax :=
  repeat match goal with
    | |- context [Z.min ?a ?b] =>
        first [ rewrite (Z.min_l a b) by lia | rewrite (Z.min_r a b) by lia ]
    | |- context [Z.max ?a ?b] =>
        first [ rewrite (Z.max_l a b) by lia | rewrite (Z.max_r a b) by lia ]
    end.

Lemma substring_slice (s : jsstring) (a b : Z) :
  0 <= a <= b -> b <= strlen s ->
  substring s a b = firstn (Z.to_nat (b - a)) (skipn (Z.to_nat a) s).
Proof.
  intros Ha Hb. unfold substring, clamp. minmax. reflexivity.
Qed.

Lemma substring_prefix (s : jsstring) (n : Z) :
  0 <= n <= strlen s -> substring s 0 n = firstn (Z.to_nat n) s.
Proof.
  intros H. rewrite substring_slice by lia.
  rewrite Z.sub_0_r. reflexivity.
Qed.

Lemma substringFrom_suffix (s : jsstring) (n : Z) :
  0 <= n <= strlen s -> substringFrom s n = skipn (Z.to_nat n) s.
Proof.
  intros H. unfold substringFrom. rewrite substring_slice by lia.
  apply firstn_all2. rewrite length_skipn. unfold strlen. lia.
Qed.

Lemma substring_whole (s : jsstring) (n : Z) :
  substring s 0 n ++ substringFrom s n = s.
Proof.
  pose proof (strlen_nonneg s) as Hlen.
  unfold substringFrom, substring, clamp.
  set (m := Z.min (Z.max n 0) (strlen s)).
  assert (Hm : 0 <= m <= strlen s) by (unfold m; lia).
  clearbody m. minmax.
  rewrite Z.sub_0_r. change (skipn (Z.to_nat 0) s) with s.
  rewrite (firstn_all2 (n := Z.to_nat (strlen s - m))).
  - apply firstn_skipn.
  - rewrite length_skipn. unfold strlen. lia.
Qed.

(** ** The monad *)

Lemma foldM_ext {A B} (f g : A -> B -> M A) (l : list B) :
  (forall a b li, f a b li = g a b li) ->
  forall a li, foldM f l a li = foldM g l a li.
Proof.
  intros Hfg. induction l as [|b l IH]; intros a li; simpl.
  - reflexivity.
  - unfold bind. rewrite Hfg.
    destruct (g a b li) as [[a'|e] li']; [apply IH | reflexivity].
Qed.

(** ** Tying the knot *)

Section Unfolding.

Variable createSourceFile : jsstring -> list Statement.

Lemma applyOne_false recur st tc li :
  applyOne recur false st tc li = (Returned (splice (fst st) tc, snd st), li).
Proof. destruct st as [fileText imports]. reflexivity. Qed.

Lemma editLoop_false_gen recur (l : list TextChange) fileText imports li :
  foldM (applyOne recur false) l (fileText, imports) li
  = (Returned (fold_left splice l fileText, imports), li).
Proof.
  revert fileText li. induction l as [|tc l IH]; intros fileText li; cbn [foldM].
  - reflexivity.
  - unfold bind. rewrite applyOne_false. cbn [fst snd fold_left]. apply IH.
Qed.

Lemma editLoop_false recur fileText textChanges li :
  editLoop recur false fileText textChanges li
  = (Returned (fold_left splice (rev textChanges) fileText, []), li).
Proof. apply editLoop_false_gen. Qed.

Lemma applyTextChangesBody_false recur fileText textChanges li :
  applyTextChangesBody createSourceFile recur fileText textChanges false li
  = (Returned (fold_left splice (rev textChanges) fileText), li).
Proof.
  unfold applyTextChangesBody, bind. rewrite editLoop_false. reflexivity.
Qed.

Lemma applyTextChanges_false fileText textChanges li :
  applyTextChanges createSourceFile fileText textChanges false li
  = (Returned (fold_left splice (rev textChanges) fileText), li).
Proof. apply applyTextChangesBody_false. Qed.

Lemma applyOne_recur recur1 recur2 fixupTypes :
  (forall t c li, recur1 t c false li = recur2 t c false li) ->
  forall st tc li,
    applyOne recur1 fixupTypes st tc li = applyOne recur2 fixupTypes st tc li.
Proof.
  intros Hrec [fileText imports] tc li. unfold applyOne.
  destruct fixupTypes; [|reflexivity].
  unfold bind.
  destruct (test _ _ li) as [[found|e] li1]; [|reflexivity].
  destruct found; cbn [negb]; [reflexivity|].
  unfold matchAll.
  destruct (foldM recordMatch _ (imports, []) li1) as [[[imports' changes]|e] li3];
    [|reflexivity].
  rewrite Hrec. reflexivity.
Qed.

(** [applyTextChanges] satisfies the recursive equation of the source. *)
Lemma applyTextChanges_unfold fileText textChanges fixupTypes li :
  applyTextChanges createSourceFile fileText textChanges fixupTypes li
  = applyTextChangesBody createSourceFile (applyTextChanges createSourceFile)
      fileText textChanges fixupTypes li.
Proof.
  unfold applyTextChanges at 1. unfold applyTextChangesBody, bind, editLoop.
  rewrite (foldM_ext _ (applyOne (applyTextChanges createSourceFile) fixupTypes)).
  - reflexivity.
  - apply applyOne_recur. intros t c li0.
    unfold applyTextChangesInner.
    rewrite applyTextChanges_false, applyTextChangesBody_false. reflexivity.
Qed.

End Unfolding.

(** ** The span edit applier against the reconstruction by hand *)

Lemma ascendingDisjoint_bound from edits len :
  ascendingDisjoint from edits len -> from <= len.
Proof.
  revert from. induction edits as [|e es IH]; intros from; simpl.
  - trivial.
  - intros (H1 & H2 & H3). apply IH in H3. unfold spanEnd in H3. lia.
Qed.

Lemma firstn_split {A} (a b : nat) (l : list A) :
  firstn (a + b) l = firstn a l ++ firstn b (skipn a l).
Proof.
  revert l. induction a as [|a IH]; intros l; simpl.
  - reflexivity.
  - destruct l as [|x l]; simpl.
    + now rewrite firstn_nil.
    + now rewrite IH.
Qed.

Lemma fold_splice_ascending (T : jsstring) (edits : list TextChange) :
  forall from, 0 <= from ->
    ascendingDisjoint from edits (strlen T) ->
    fold_left splice (rev edits) T
    = firstn (Z.to_nat from) T ++ reconstruct T from edits.
Proof.
  induction edits as [|e es IH]; intros from Hfrom Hasc; simpl in *.
  - rewrite substringFrom_suffix by lia. now rewrite firstn_skipn.
  - destruct Hasc as (Hs & Hl & Hrest).
    pose proof (ascendingDisjoint_bound _ _ _ Hrest) as Hend.
    rewrite fold_left_app. simpl.
    rewrite (IH (spanEnd e)) by (trivial; unfold spanEnd; lia).
    set (R := reconstruct T (spanEnd e) es).
    unfold splice, spanEnd in *.
    set (s := start (span e)) in *. set (l := length (span e)) in *.
    assert (Hlen : List.length (firstn (Z.to_nat (s + l)) T) = Z.to_nat (s + l)).
    { rewrite length_firstn. unfold strlen in Hend. lia. }
    rewrite substring_prefix, substringFrom_suffix
      by (unfold strlen; rewrite length_app, Hlen; lia).
    rewrite firstn_app, skipn_app, Hlen, firstn_firstn.
    rewrite Nat.sub_diag, skipn_all2 by lia. simpl.
    replace (Z.to_nat s - Z.to_nat (s + l))%nat with 0%nat by lia.
    rewrite Nat.min_l by lia. simpl. rewrite app_nil_r.
    rewrite substring_slice by lia.
    assert (E : firstn (Z.to_nat s) T
                = firstn (Z.to_nat from) T
                  ++ firstn (Z.to_nat (s - from)) (skipn (Z.to_nat from) T)).
    { rewrite <- firstn_split. f_equal. lia. }
    rewrite E, <- app_assoc. reflexivity.
Qed.
(** ** The matcher *)

Lemma consumed_Some k res caps n :
  consumed k res = Some (caps, n) ->
  exists n', res = Some (caps, n') /\ n = (k + n')%nat.
Proof.
  destruct res as [[caps' n']|]; simpl; [|discriminate].
  intros H. inversion H; subst. eauto.
Qed.

Lemma captured_Some c res caps n :
  captured c res = Some (caps, n) ->
  exists caps', res = Some (caps', n) /\ caps = c :: caps'.
Proof.
  destruct res as [[caps' n']|]; simpl; [|discriminate].
  intros H. inversion H; subst. eauto.
Qed.

Lemma plusLoop_bounded cls k :
  boundedBy k ->
  forall s taken caps n,
    plusLoop cls k taken s = Some (caps, n) ->
    (n <= List.length taken + List.length s)%nat.
Proof.
  intros Hk. induction s as [|c s IH]; intros taken caps n; simpl.
  - discriminate.
  - destruct (cls c); [|discriminate].
    destruct (plusLoop cls k (taken ++ [c]) s) as [res|] eqn:E.
    + intros H. inversion H; subst. apply IH in E.
      rewrite length_app in E. simpl in E. lia.
    + intros H. apply captured_Some in H as (caps' & H & _).
      apply consumed_Some in H as (n' & H & ->).
      apply Hk in H. lia.
Qed.

Lemma plusLoop_captures cls k Q :
  capturesSat Q k ->
  forall s taken caps n,
    plusLoop cls k taken s = Some (caps, n) ->
    exists c caps', caps = c :: caps' /\ c <> [] /\ Q caps'.
Proof.
  intros Hk. induction s as [|c s IH]; intros taken caps n; simpl.
  - discriminate.
  - destruct (cls c); [|discriminate].
    destruct (plusLoop cls k (taken ++ [c]) s) as [res|] eqn:E.
    + intros H. inversion H; subst. eapply IH, E.
    + intros H. apply captured_Some in H as (caps' & H & ->).
      apply consumed_Some in H as (n' & H & ->).
      exists (taken ++ [c]), caps'. repeat split.
      * intros Hnil. apply app_eq_nil in Hnil as [_ Hnil]. discriminate.
      * eapply Hk, H.
Qed.

Lemma litLoop_bounded lit k : boundedBy k -> boundedBy (litLoop lit k).
Proof.
  intros Hk. induction lit as [|c lit IH]; intros prev s caps n; simpl.
  - apply Hk.
  - destruct s as [|c' s]; [discriminate|].
    destruct (N.eqb c c'); [|discriminate].
    intros H. apply consumed_Some in H as (n' & H & ->).
    apply IH in H. simpl. lia.
Qed.

Lemma litLoop_captures lit k Q : capturesSat Q k -> capturesSat Q (litLoop lit k).
Proof.
  intros Hk. induction lit as [|c lit IH]; intros prev s caps n; simpl.
  - apply Hk.
  - destruct s as [|c' s]; [discriminate|].
    destruct (N.eqb c c'); [|discriminate].
    intros H. apply consumed_Some in H as (n' & H & ->).
    eapply IH, H.
Qed.

Lemma matchAtoms_bounded r : boundedBy (matchAtoms r).
Proof.
  induction r as [|a r IH]; intros prev s caps n; simpl.
  - intros H. inversion H. lia.
  - destruct a.
    + destruct (isWordBoundary prev s); [apply IH | discriminate].
    + destruct s as [|c' s]; [discriminate|].
      destruct (N.eqb c c'); [|discriminate].
      intros H. apply consumed_Some in H as (n' & H & ->).
      apply IH in H. simpl. lia.
    + destruct s as [|c' s]; [discriminate|].
      destruct (cls c'); [|discriminate].
      intros H. apply consumed_Some in H as (n' & H & ->).
      apply IH in H. simpl. lia.
    + intros H. apply (plusLoop_bounded _ _ IH) in H. simpl in H. lia.
    + destruct (litLoop lit (matchAtoms r) prev s) as [[caps1 n1]|] eqn:E.
      * simpl. intros H. inversion H; subst.
        eapply (litLoop_bounded _ _ IH), E.
      * intros H. apply captured_Some in H as (caps' & H & _).
        eapply IH, H.
Qed.

Lemma matchAtoms_captures r : capturesSat (capturesOf r) (matchAtoms r).
Proof.
  induction r as [|a r IH]; intros prev s caps n; simpl.
  - intros H. now inversion H.
  - destruct a.
    + destruct (isWordBoundary prev s); [apply IH | discriminate].
    + destruct s as [|c' s]; [discriminate|].
      destruct (N.eqb c c'); [|discriminate].
      intros H. apply consumed_Some in H as (n' & H & ->). eapply IH, H.
    + destruct s as [|c' s]; [discriminate|].
      destruct (cls c'); [|discriminate].
      intros H. apply consumed_Some in H as (n' & H & ->). eapply IH, H.
    + intros H. eapply plusLoop_captures in H; eauto.
    + destruct (litLoop lit (matchAtoms r) prev s) as [[caps1 n1]|] eqn:E.
      * simpl. intros H. inversion H; subst.
        exists lit, caps1. split; [reflexivity|].
        eapply (litLoop_captures _ _ _ IH), E.
      * intros H. apply captured_Some in H as (caps' & H & ->).
        exists [], caps'. split; [reflexivity|]. eapply IH, H.
Qed.

(** *** The shape of a dynamic reference *)

Lemma plusLoop_stop cls k taken rest :
  notNext cls rest -> plusLoop cls k taken rest = None.
Proof.
  destruct rest as [|c rest]; simpl; [reflexivity|]. now intros ->.
Qed.

Lemma plusLoop_greedy cls k : forall run taken rest prev caps n,
  run <> [] -> forallb cls run = true -> notNext cls rest ->
  k (prevAfter prev run) rest = Some (caps, n) ->
  plusLoop cls k taken (run ++ rest)
  = Some ((taken ++ run) :: caps, (List.length taken + List.length run + n)%nat).
Proof.
  induction run as [|c run IH]; intros taken rest prev caps n Hne Hall Hrest Hk;
    [congruence|].
  cbn [forallb] in Hall. apply andb_true_iff in Hall as [Hc Hall].
  cbn [app plusLoop]. rewrite Hc.
  destruct run as [|c' run'].
  - cbn [app]. rewrite plusLoop_stop by trivial.
    cbn in Hk. rewrite Hk. reflexivity.
  - rewrite (IH (taken ++ [c]) rest (Some c) caps n); trivial; [|discriminate].
    rewrite <- app_assoc, length_app. cbn [List.length app].
    f_equal. f_equal. lia.
Qed.

Lemma plusLoop_sound cls k : forall s taken caps n,
  plusLoop cls k taken s = Some (caps, n) ->
  exists run rest caps' n',
    s = run ++ rest /\ run <> [] /\ forallb cls run = true
    /\ k (prevAfter None run) rest = Some (caps', n')
    /\ caps = (taken ++ run) :: caps'
    /\ n = (List.length taken + List.length run + n')%nat.
Proof.
  induction s as [|c s IH]; intros taken caps n; cbn [plusLoop]; [discriminate|].
  destruct (cls c) eqn:Hc; [|discriminate].
  destruct (plusLoop cls k (taken ++ [c]) s) as [res|] eqn:E.
  - intros H. inversion H; subst. apply IH in E
      as (run & rest & caps' & n' & -> & Hne & Hall & Hk & -> & ->).
    exists (c :: run), rest, caps', n'. repeat split.
    + discriminate.
    + cbn. now rewrite Hc.
    + destruct run as [|c' run']; [congruence|]. exact Hk.
    + now rewrite <- app_assoc.
    + rewrite length_app. cbn. lia.
  - intros H. apply captured_Some in H as (caps' & H & ->).
    apply consumed_Some in H as (n' & H & ->).
    exists [c], s, caps', n'. repeat split; trivial.
    + discriminate.
    + cbn. now rewrite Hc.
Qed.

Lemma consumed_consumed a b x : consumed a (consumed b x) = consumed (a + b) x.
Proof. destruct x as [[caps n]|]; simpl; [|reflexivity]. f_equal. f_equal. lia. Qed.

Lemma consumed_0 x : consumed 0 x = x.
Proof. now destruct x as [[caps n]|]. Qed.

Lemma matchAtoms_lit lit r : forall prev s,
  matchAtoms (map Chr lit ++ r) prev (lit ++ s)
  = consumed (List.length lit) (matchAtoms r (prevAfter prev lit) s).
Proof.
  induction lit as [|c lit IH]; intros prev s; cbn [map app matchAtoms List.length].
  - now rewrite consumed_0.
  - rewrite N.eqb_refl, IH, consumed_consumed. reflexivity.
Qed.

Lemma matchAtoms_lit_sound lit r : forall prev s caps n,
  matchAtoms (map Chr lit ++ r) prev s = Some (caps, n) ->
  exists s' n',
    s = lit ++ s'
    /\ matchAtoms r (prevAfter prev lit) s' = Some (caps, n')
    /\ n = (List.length lit + n')%nat.
Proof.
  induction lit as [|c lit IH]; intros prev s caps n; cbn [map app matchAtoms].
  - intros H. exists s, n. auto.
  - destruct s as [|c' s]; [discriminate|].
    destruct (N.eqb_spec c c') as [<-|]; [|discriminate].
    intros H. apply consumed_Some in H as (n1 & H & ->).
    apply IH in H as (s' & n' & -> & H & ->).
    exists s', n'. repeat split; trivial.
Qed.

Lemma dynamicTypeRegex_parts :
  dynamicTypeRegex
  = WordBoundary
    :: map Chr importOpen
       ++ CapturePlus notDquote
          :: map Chr moduleClose
             ++ [CapturePlus isWordChar; WordBoundary].
Proof. reflexivity. Qed.

Lemma forallb_last (cls : char -> bool) (run : jsstring) (prev : option char) :
  run <> [] -> forallb cls run = true ->
  exists c, prevAfter prev run = Some c /\ cls c = true.
Proof.
  revert prev. induction run as [|c run IH]; intros prev Hne Hall; [congruence|].
  cbn in Hall. apply andb_true_iff in Hall as [Hc Hall].
  destruct run as [|c' run'].
  - exists c. auto.
  - apply (IH (Some c)); [discriminate | exact Hall].
Qed.

(** A dynamic reference at a word boundary is matched, with its module
    path and its name as captures. *)
Lemma dynamicTypeRegex_complete prev module type rest :
  notWordBefore prev ->
  module <> [] -> forallb notDquote module = true ->
  type <> [] -> forallb isWordChar type = true ->
  notNext isWordChar rest ->
  matchAtoms dynamicTypeRegex prev (dynamicReference module type ++ rest)
  = Some ([module; type], List.length (dynamicReference module type)).
Proof.
  intros Hprev Hm Hmq Ht Htw Hrest.
  assert (HA : forall p,
             matchAtoms [CapturePlus isWordChar; WordBoundary] p (type ++ rest)
             = Some ([type], List.length type)).
  { intros p. cbn [matchAtoms].
    rewrite (plusLoop_greedy _ _ type [] rest p [] 0%nat); trivial.
    - cbn [app List.length]. f_equal. f_equal. lia.
    - destruct (forallb_last _ type p Ht Htw) as (c & -> & Hcw).
      unfold isWordBoundary. rewrite Hcw.
      destruct rest as [|d rest]; [reflexivity|].
      unfold notNext in Hrest. now rewrite Hrest. }
  assert (HB : forall p,
             matchAtoms (CapturePlus notDquote
                           :: map Chr moduleClose
                              ++ [CapturePlus isWordChar; WordBoundary])
               p (module ++ moduleClose ++ type ++ rest)
             = Some ([module; type],
                     (List.length module
                      + (List.length moduleClose + List.length type))%nat)).
  { intros p. cbn [matchAtoms].
    rewrite (plusLoop_greedy _ _ module [] (moduleClose ++ type ++ rest) p
               [type] (List.length moduleClose + List.length type)%nat);
      trivial.
    - reflexivity.
    - rewrite matchAtoms_lit, HA. reflexivity. }
  rewrite dynamicTypeRegex_parts. unfold dynamicReference.
  rewrite <- !app_assoc. cbn [matchAtoms].
  replace (isWordBoundary prev _) with true
    by (destruct prev as [c|]; unfold isWordBoundary, notWordBefore in *;
        [rewrite Hprev|]; reflexivity).
  rewrite matchAtoms_lit, HB. cbn [consumed].
  rewrite !length_app. reflexivity.
Qed.

(** Conversely, what the pattern matches is a dynamic reference at a word
    boundary, taken as far as its name goes. *)
Lemma dynamicTypeRegex_sound prev s caps n :
  matchAtoms dynamicTypeRegex prev s = Some (caps, n) ->
  exists module type rest,
    s = dynamicReference module type ++ rest
    /\ caps = [module; type]
    /\ n = List.length (dynamicReference module type)
    /\ notWordBefore prev
    /\ module <> [] /\ forallb notDquote module = true
    /\ type <> [] /\ forallb isWordChar type = true
    /\ notNext isWordChar rest.
Proof.
  rewrite dynamicTypeRegex_parts. cbn [matchAtoms].
  destruct (isWordBoundary prev s) eqn:Hb; [|discriminate].
  intros H.
  apply matchAtoms_lit_sound in H as (s1 & n1 & -> & H & ->).
  cbn [matchAtoms] in H.
  apply plusLoop_sound in H
    as (module & rest1 & caps1 & n2 & -> & Hm & Hmq & H & -> & ->).
  apply matchAtoms_lit_sound in H as (s2 & n3 & -> & H & ->).
  cbn [matchAtoms] in H.
  apply plusLoop_sound in H
    as (type & rest & caps2 & n4 & -> & Ht & Htw & H & -> & ->).
  destruct (forallb_last _ type None Ht Htw) as (c & Hc & Hcw).
  rewrite Hc in H. unfold isWordBoundary in H. rewrite Hcw in H.
  exists module, type, rest. unfold dynamicReference.
  assert (Hrest : notNext isWordChar rest).
  { destruct rest as [|d rest]; [exact I|].
    unfold notNext. destruct (isWordChar d); [discriminate | reflexivity]. }
  assert (Hcaps : caps2 = [] /\ n4 = 0%nat).
  { destruct rest as [|d rest]; [now inversion H|].
    unfold notNext in Hrest. rewrite Hrest in H. now inversion H. }
  destruct Hcaps as [-> ->].
  repeat split; trivial.
  - now rewrite <- !app_assoc.
  - rewrite !length_app. cbn [List.length]. lia.
  - destruct prev as [p|]; [|exact I].
    unfold isWordBoundary in Hb. cbn in Hb. unfold notWordBefore.
    destruct (isWordChar p); [discriminate | reflexivity].
Qed.

(** *** Searching *)

(** What [search], [exec] and the loop over [exec] find lies inside the
    subject, at or after the position the search started from. *)
Lemma search_spec r s : forall prev pos m,
  search r prev s pos = Some m ->
  (pos <= index m)%nat
  /\ (index m + List.length (matchText m) <= pos + List.length s)%nat
  /\ capturesOf r (captures m)
  /\ matchText m
     = firstn (List.length (matchText m)) (skipn (index m - pos) s).
Proof.
  induction s as [|c s IH]; intros prev pos m; simpl.
  - destruct (matchAtoms r prev []) as [[caps n]|] eqn:E; [|discriminate].
    intros H. inversion H; subst; simpl.
    rewrite firstn_nil, skipn_nil. simpl. repeat split; try lia.
    eapply matchAtoms_captures, E.
  - destruct (matchAtoms r prev (c :: s)) as [[caps n]|] eqn:E.
    + intros H. inversion H; subst; cbn [index matchText captures].
      pose proof (matchAtoms_bounded _ _ _ _ _ E) as Hn. simpl in Hn.
      rewrite Nat.sub_diag, length_firstn. cbn [skipn List.length].
      rewrite Nat.min_l by lia. repeat split; try lia.
      eapply matchAtoms_captures, E.
    + intros H. apply IH in H as (H1 & H2 & H3 & H4).
      replace (index m - pos)%nat with (S (index m - S pos)) by lia.
      simpl. repeat split; trivial; lia.
Qed.

Lemma exec_Some r s li m li' :
  exec r s li = (Some m, li') ->
  (li <= index m)%nat
  /\ (index m + List.length (matchText m) <= List.length s)%nat
  /\ li' = (index m + List.length (matchText m))%nat
  /\ capturesOf r (captures m)
  /\ matchText m = firstn (List.length (matchText m)) (skipn (index m) s).
Proof.
  unfold exec. destruct (Nat.ltb_spec (List.length s) li) as [Hlt|Hle].
  - discriminate.
  - destruct (search r (charBefore s li) (skipn li s) li) as [m'|] eqn:E.
    + intros H. inversion H; subst.
      apply search_spec in E as (H1 & H2 & H3 & H4).
      rewrite length_skipn in H2. repeat split; trivial; try lia.
      rewrite skipn_skipn in H4.
      now replace (index m - li + li)%nat with (index m) in H4 by lia.
    + discriminate.
Qed.

Lemma exec_None r s li li' : exec r s li = (None, li') -> li' = 0%nat.
Proof.
  unfold exec. destruct (List.length s <? li)%nat.
  - intros H. now inversion H.
  - destruct (search _ _ _ _); intros H; now inversion H.
Qed.

Lemma charBeforeIn_cons prev c s j :
  charBeforeIn prev (c :: s) (S j) = charBeforeIn (Some c) s j.
Proof. now destruct j. Qed.

Lemma search_found r s : forall prev pos m,
  search r prev s pos = Some m ->
  matchAtoms r (charBeforeIn prev s (index m - pos)) (skipn (index m - pos) s)
  = Some (captures m, List.length (matchText m)).
Proof.
  induction s as [|c s IH]; intros prev pos m; cbn [search].
  - destruct (matchAtoms r prev []) as [[caps n]|] eqn:E; [|discriminate].
    intros H. inversion H; subst; cbn [index matchText captures].
    rewrite Nat.sub_diag, firstn_nil. cbn [charBeforeIn skipn List.length].
    pose proof (matchAtoms_bounded _ _ _ _ _ E) as Hn. cbn in Hn.
    rewrite E. f_equal. f_equal. lia.
  - destruct (matchAtoms r prev (c :: s)) as [[caps n]|] eqn:E.
    + intros H. inversion H; subst; cbn [index matchText captures].
      pose proof (matchAtoms_bounded _ _ _ _ _ E) as Hn.
      rewrite Nat.sub_diag, length_firstn, Nat.min_l by exact Hn.
      exact E.
    + intros H. pose proof (search_spec _ _ _ _ _ H) as (Hpos & _).
      apply IH in H.
      replace (index m - pos)%nat with (S (index m - S pos)) by lia.
      now rewrite charBeforeIn_cons.
Qed.

Lemma search_leftmost r s : forall prev pos j res,
  (j <= List.length s)%nat ->
  matchAtoms r (charBeforeIn prev s j) (skipn j s) = Some res ->
  exists m, search r prev s pos = Some m /\ (index m <= pos + j)%nat.
Proof.
  induction s as [|c s IH]; intros prev pos j res Hj Hres; cbn [search].
  - destruct j; [|cbn in Hj; lia]. cbn in Hres. rewrite Hres.
    destruct res as [caps n]. eexists. split; [reflexivity|]. cbn. lia.
  - destruct (matchAtoms r prev (c :: s)) as [[caps n]|] eqn:E.
    + eexists. split; [reflexivity|]. cbn. lia.
    + destruct j as [|j]; [cbn in Hres; congruence|].
      rewrite charBeforeIn_cons in Hres. cbn [skipn] in Hres.
      cbn in Hj.
      destruct (IH (Some c) (S pos) j res ltac:(lia) Hres) as (m & Hm & Hle).
      exists m. split; [exact Hm | lia].
Qed.

Lemma charBeforeIn_skipn s li j :
  charBeforeIn (charBefore s li) (skipn li s) j = charBefore s (li + j).
Proof.
  destruct j as [|j]; cbn [charBeforeIn].
  - now rewrite Nat.add_0_r.
  - rewrite nth_error_skipn. now rewrite Nat.add_succ_r.
Qed.

Lemma exec_found r s li m li' :
  exec r s li = (Some m, li') ->
  matchAtoms r (charBefore s (index m)) (skipn (index m) s)
  = Some (captures m, List.length (matchText m)).
Proof.
  intros H. pose proof (exec_Some _ _ _ _ _ H) as (Hli & _).
  unfold exec in H. destruct (List.length s <? li)%nat; [discriminate|].
  destruct (search r (charBefore s li) (skipn li s) li) as [m'|] eqn:E;
    [|discriminate].
  inversion H; subst. apply search_found in E.
  rewrite charBeforeIn_skipn, skipn_skipn in E.
  now replace (li + (index m - li))%nat with (index m) in E by lia;
    replace (index m - li + li)%nat with (index m) in E by lia.
Qed.

Lemma exec_leftmost r s li i res :
  (li <= i <= List.length s)%nat ->
  matchAtoms r (charBefore s i) (skipn i s) = Some res ->
  exists m li', exec r s li = (Some m, li') /\ (index m <= i)%nat.
Proof.
  intros Hi Hres. unfold exec.
  destruct (Nat.ltb_spec (List.length s) li) as [Hlt|Hle]; [lia|].
  destruct (search_leftmost r (skipn li s) (charBefore s li) li (i - li) res)
    as (m & Hm & Hle').
  - rewrite length_skipn. lia.
  - rewrite charBeforeIn_skipn, skipn_skipn.
    now replace (li + (i - li))%nat with i by lia;
      replace (i - li + li)%nat with i by lia.
  - rewrite Hm. eexists _, _. split; [reflexivity | lia].
Qed.

Lemma matchesFrom_weaken from from' ms len :
  (from' <= from)%nat -> matchesFrom from ms len -> matchesFrom from' ms len.
Proof.
  destruct ms as [|m ms]; simpl; [trivial|].
  intros Hle (H1 & H2 & H3). repeat split; trivial; lia.
Qed.

Lemma execAll_ascending r s : forall fuel li,
  matchesFrom li (execAll fuel r s li) (List.length s).
Proof.
  induction fuel as [|fuel IH]; intros li; simpl; [trivial|].
  destruct (exec r s li) as [[m|] thisIndex] eqn:E; simpl; [|trivial].
  apply exec_Some in E as (H1 & H2 & -> & _ & _).
  repeat split; trivial.
  eapply matchesFrom_weaken; [|apply IH].
  destruct (matchText m); lia.
Qed.

Lemma execAll_matchIn r s : forall fuel li,
  Forall (matchIn r s) (execAll fuel r s li).
Proof.
  induction fuel as [|fuel IH]; intros li; simpl; [constructor|].
  destruct (exec r s li) as [[m|] thisIndex] eqn:E; [|constructor].
  constructor; [|apply IH]. split.
  - apply (exec_found _ _ _ _ _ E).
  - now apply exec_Some in E as (_ & _ & _ & _ & H).
Qed.

(** The loop stops because [exec] finds nothing more, not because the
    rounds are used up: any larger number of rounds gives the same list. *)
Lemma execAll_fuel r s : forall fuel1 fuel2 li,
  (S (List.length s) - li <= fuel1)%nat ->
  (S (List.length s) - li <= fuel2)%nat ->
  execAll fuel1 r s li = execAll fuel2 r s li.
Proof.
  assert (Hout : forall fuel li, (List.length s < li)%nat ->
                                 execAll fuel r s li = []).
  { intros [|fuel] li Hlt; simpl; [reflexivity|].
    unfold exec. apply Nat.ltb_lt in Hlt. now rewrite Hlt. }
  induction fuel1 as [|fuel1 IH]; intros fuel2 li H1 H2.
  - rewrite !Hout by lia. reflexivity.
  - destruct fuel2 as [|fuel2]; [rewrite !Hout by lia; reflexivity|].
    simpl. destruct (exec r s li) as [[m|] thisIndex] eqn:E; [|reflexivity].
    apply exec_Some in E as (Hli & Hlen & -> & _ & _).
    f_equal. remember (matchText m) as mt eqn:Emt.
    apply IH; destruct mt; cbn [List.length] in *; lia.
Qed.

Lemma allMatches_fuel r s li fuel :
  (S (List.length s) - li <= fuel)%nat ->
  execAll fuel r s li = allMatches r s li.
Proof. intros H. apply execAll_fuel; [trivial | lia]. Qed.

(** The loop over [exec] misses no match: a match at position [i] is in
    the list, unless [i] lies inside a match that starts before it. *)
Lemma execAll_complete r s : forall fuel li i res,
  (li <= i <= List.length s)%nat ->
  (S (List.length s) - li <= fuel)%nat ->
  matchAtoms r (charBefore s i) (skipn i s) = Some res ->
  exists m,
    In m (execAll fuel r s li)
    /\ ((index m = i /\ (captures m, List.length (matchText m)) = res)
        \/ (index m < i < index m + List.length (matchText m))%nat).
Proof.
  induction fuel as [|fuel IH]; intros li i res Hi Hfuel Hres; [lia|].
  cbn [execAll].
  destruct (exec_leftmost r s li i res Hi Hres) as (m & li' & E & Hle).
  rewrite E.
  pose proof (exec_found _ _ _ _ _ E) as Hfound.
  apply exec_Some in E as (Hli & Hlen & -> & _).
  destruct (Nat.eq_dec (index m) i) as [Heq|Hne].
  - exists m. split; [now left|]. left. split; [exact Heq|].
    rewrite Heq in Hfound. congruence.
  - destruct (Nat.lt_ge_cases i (index m + List.length (matchText m)))
      as [Hin|Hout].
    + exists m. split; [now left|]. right. lia.
    + remember (matchText m) as mt eqn:Emt.
      destruct (IH (match mt with
                    | [] => S (index m + List.length mt)
                    | _ :: _ => (index m + List.length mt)%nat
                    end) i res) as (m' & Hin' & Hm'); trivial.
      * destruct mt; cbn [List.length] in *; lia.
      * destruct mt; cbn [List.length] in *; lia.
      * exists m'. split; [now right | exact Hm'].
Qed.

(** *** Dynamic references and the matches of [dynamicTypeRegex] *)

Lemma dynamicReferenceAt_matches s i module type :
  dynamicReferenceAt s i module type ->
  matchAtoms dynamicTypeRegex (charBefore s i) (skipn i s)
  = Some ([module; type], List.length (dynamicReference module type)).
Proof.
  intros (Hprev & Hm & Hmq & Ht & Htw & rest & -> & Hrest).
  now apply dynamicTypeRegex_complete.
Qed.

Lemma matches_dynamicReferenceAt s i caps n :
  matchAtoms dynamicTypeRegex (charBefore s i) (skipn i s) = Some (caps, n) ->
  exists module type,
    caps = [module; type]
    /\ n = List.length (dynamicReference module type)
    /\ dynamicReferenceAt s i module type.
Proof.
  intros H. apply dynamicTypeRegex_sound in H
    as (module & type & rest & Hs & -> & -> & Hprev & Hm & Hmq & Ht & Htw & Hrest).
  exists module, type. repeat split; trivial. eauto.
Qed.

Lemma matchIn_dynamicReference s m :
  matchIn dynamicTypeRegex s m ->
  dynamicReferenceAt s (index m) (moduleOf m) (typeOf m)
  /\ matchText m = dynamicReference (moduleOf m) (typeOf m).
Proof.
  intros [Hmatch Htext].
  apply matches_dynamicReferenceAt in Hmatch
    as (module & type & Hcaps & Hlen & Hat).
  unfold moduleOf, typeOf. rewrite Hcaps. cbn [nth].
  split; [exact Hat|].
  destruct Hat as (_ & _ & _ & _ & _ & rest & Hskip & _).
  rewrite Htext, Hlen, Hskip, firstn_app, Nat.sub_diag, firstn_all.
  cbn [firstn]. apply app_nil_r.
Qed.

(** Every dynamic reference of a text is among the matches found from the
    start, unless it begins inside a match that starts before it. *)
Lemma allMatches_every_reference s i module type :
  dynamicReferenceAt s i module type ->
  exists m,
    In m (allMatches dynamicTypeRegex s 0)
    /\ ((index m = i /\ moduleOf m = module /\ typeOf m = type)
        \/ (index m < i < index m + List.length (matchText m))%nat).
Proof.
  intros Hat. pose proof (dynamicReferenceAt_matches _ _ _ _ Hat) as Hmatch.
  assert (Hi : (i <= List.length s)%nat).
  { destruct Hat as (_ & _ & _ & _ & _ & rest & Hskip & _).
    destruct (Nat.le_gt_cases i (List.length s)) as [Hle|Hgt]; [exact Hle|].
    rewrite skipn_all2 in Hskip by lia. discriminate. }
  destruct (execAll_complete dynamicTypeRegex s (S (List.length s)) 0 i _
              ltac:(lia) ltac:(lia) Hmatch) as (m & Hin & Hm).
  exists m. split; [exact Hin|].
  destruct Hm as [[Hidx Hres]|Hinside]; [left | now right].
  inversion Hres as [[Hcaps Hlen]]. unfold moduleOf, typeOf.
  rewrite Hcaps. auto.
Qed.

Lemma dynamicReferenceAt_inside s i module type :
  dynamicReferenceAt s i module type -> (i <= List.length s)%nat.
Proof.
  intros (_ & _ & _ & _ & _ & rest & Hskip & _).
  destruct (Nat.le_gt_cases i (List.length s)) as [Hle|Hgt]; [exact Hle|].
  rewrite skipn_all2 in Hskip by lia. discriminate.
Qed.

(** A text without dynamic reference has no match, wherever the search
    starts; a text with one has a match from the start. *)
Lemma exec_noDynamicReference s li :
  noDynamicReference s -> fst (exec dynamicTypeRegex s li) = None.
Proof.
  intros Hno. destruct (exec dynamicTypeRegex s li) as [[m|] li'] eqn:E;
    [|reflexivity].
  apply exec_found, matches_dynamicReferenceAt in E
    as (module & type & _ & _ & Hat).
  now apply Hno in Hat.
Qed.

Lemma exec_dynamicReferenceAt s i module type :
  dynamicReferenceAt s i module type ->
  exists m li', exec dynamicTypeRegex s 0 = (Some m, li').
Proof.
  intros Hat. pose proof (dynamicReferenceAt_inside _ _ _ _ Hat) as Hi.
  apply dynamicReferenceAt_matches in Hat.
  destruct (exec_leftmost dynamicTypeRegex s 0 i _ ltac:(lia) Hat)
    as (m & li' & E & _).
  eauto.
Qed.

Lemma noDynamicReference_exec s :
  fst (exec dynamicTypeRegex s 0) = None -> noDynamicReference s.
Proof.
  intros Hnone i module type Hat.
  apply exec_dynamicReferenceAt in Hat as (m & li' & E).
  rewrite E in Hnone. discriminate.
Qed.

(** ** Recording the matches of a replacement text *)

Lemma recordMatch_ok imports changes m li :
  wellCaptured m ->
  recordMatch (imports, changes) m li
  = (Returned (addImport imports (moduleOf m) (typeOf m),
               changes ++ [changeOf m]), li).
Proof.
  intros [Hm Ht]. unfold recordMatch, changeOf, moduleOf, typeOf in *.
  destruct (nth 0 (captures m) []) as [|c1 m1]; [congruence|].
  destruct (nth 1 (captures m) []) as [|c2 t1]; [congruence|].
  reflexivity.
Qed.

Lemma foldM_recordMatch ms :
  Forall wellCaptured ms ->
  forall imports changes li,
    foldM recordMatch ms (imports, changes) li
    = (Returned (recordAll imports ms, changes ++ map changeOf ms), li).
Proof.
  induction 1 as [|m ms Hm Hms IH]; intros imports changes li; cbn [foldM].
  - simpl. now rewrite app_nil_r.
  - unfold bind. rewrite recordMatch_ok by trivial.
    rewrite IH. simpl. now rewrite <- app_assoc.
Qed.

(** The assertion [assert(module && type)] always holds: both groups of
    [dynamicTypeRegex] are repetitions of one or more. *)
Lemma dynamicTypeRegex_captures caps :
  capturesOf dynamicTypeRegex caps ->
  exists module type, caps = [module; type] /\ module <> [] /\ type <> [].
Proof.
  intros H. cbn in H.
  destruct H as (c1 & caps1 & -> & Hc1 & c2 & caps2 & -> & Hc2 & ->).
  eauto.
Qed.

Lemma allMatches_wellCaptured s li :
  Forall wellCaptured (allMatches dynamicTypeRegex s li).
Proof.
  eapply Forall_impl; [|apply execAll_matchIn].
  intros m [H _]. apply matchAtoms_captures in H.
  apply dynamicTypeRegex_captures in H as (md & ty & E & Hm & Ht).
  unfold wellCaptured, moduleOf, typeOf. now rewrite E.
Qed.

Lemma changes_ascending (ms : list RegExpMatch) (len : nat) : forall from,
  (from <= len)%nat ->
  matchesFrom from ms len ->
  ascendingDisjoint (Z.of_nat from) (map changeOf ms) (Z.of_nat len).
Proof.
  induction ms as [|m ms IH]; intros from Hfrom; simpl.
  - intros _. lia.
  - intros (H1 & H2 & H3). unfold strlen. repeat split; try lia.
    replace (spanEnd (changeOf m))
      with (Z.of_nat (index m + List.length (matchText m)))
      by (unfold spanEnd, changeOf, strlen; simpl; lia).
    apply IH; trivial.
Qed.

(** ** One round of the loop with [fixupTypes] on *)

Section Rounds.

Variable createSourceFile : jsstring -> list Statement.

Lemma nested_call (newText : jsstring) (li : nat) :
  (applyTextChanges createSourceFile) newText
    (map changeOf (allMatches dynamicTypeRegex newText 0)) false li
  = (Returned (rewritten newText), li).
Proof.
  rewrite applyTextChanges_false. unfold rewritten.
  rewrite (fold_splice_ascending _ _ 0); [reflexivity | lia |].
  apply (changes_ascending _ _ 0%nat); [lia | apply execAll_ascending].
Qed.

(** The old text has no match from [lastIndex] on: the replacement text is
    rewritten, its matches are recorded, [lastIndex] is 0 afterwards. *)
Lemma applyOne_rewrite fileText imports tc li li1 :
  exec dynamicTypeRegex
    (substring fileText (start (span tc)) (spanEnd tc)) li = (None, li1) ->
  applyOne (applyTextChanges createSourceFile) true (fileText, imports) tc li
  = (Returned (substring fileText 0 (start (span tc))
               ++ rewritten (newText tc)
               ++ substringFrom fileText (spanEnd tc),
               recordAll imports
                 (allMatches dynamicTypeRegex (newText tc) 0)), 0%nat).
Proof.
  intros E. pose proof (exec_None _ _ _ _ E) as ->.
  unfold applyOne, bind, test. fold (spanEnd tc). rewrite E. cbn [negb].
  unfold matchAll.
  rewrite foldM_recordMatch by apply allMatches_wellCaptured.
  cbn [app]. rewrite nested_call. reflexivity.
Qed.

(** The old text has a match from [lastIndex] on: the replacement text goes
    in as it is, nothing is recorded, [lastIndex] is the end of the match. *)
Lemma applyOne_suppressed fileText imports tc li m li1 :
  exec dynamicTypeRegex
    (substring fileText (start (span tc)) (spanEnd tc)) li = (Some m, li1) ->
  applyOne (applyTextChanges createSourceFile) true (fileText, imports) tc li
  = (Returned (splice fileText tc, imports), li1).
Proof.
  intros E. unfold applyOne, bind, test. fold (spanEnd tc). rewrite E.
  reflexivity.
Qed.

(** With [lastIndex] at 0, an old text that holds a dynamic reference
    keeps the replacement text as it is. *)
Lemma applyOne_suppressed_from_start fileText imports tc i module type :
  dynamicReferenceAt
    (substring fileText (start (span tc)) (spanEnd tc)) i module type ->
  exists li1,
    applyOne (applyTextChanges createSourceFile) true (fileText, imports) tc
      0%nat
    = (Returned (splice fileText tc, imports), li1).
Proof.
  intros Hat. apply exec_dynamicReferenceAt in Hat as (m & li1 & E).
  exists li1. now apply (applyOne_suppressed _ _ _ _ m).
Qed.

(** No round of the loop throws. *)
Lemma applyOne_returns fixupTypes st tc li :
  exists st' li',
    applyOne (applyTextChanges createSourceFile) fixupTypes st tc li = (Returned st', li').
Proof.
  destruct fixupTypes.
  - destruct st as [fileText imports].
    destruct (exec dynamicTypeRegex
                (substring fileText (start (span tc)) (spanEnd tc)) li)
      as [[m|] li1] eqn:E.
    + rewrite (applyOne_suppressed _ _ _ _ _ _ E). eauto.
    + rewrite (applyOne_rewrite _ _ _ _ _ E). eauto.
  - rewrite applyOne_false. eauto.
Qed.

Lemma editLoop_returns fixupTypes fileText textChanges li :
  exists st' li',
    editLoop (applyTextChanges createSourceFile) fixupTypes fileText textChanges li
    = (Returned st', li').
Proof.
  unfold editLoop. generalize (fileText, @nil (jsstring * StringSet)).
  generalize (rev textChanges). intros l. revert li.
  induction l as [|tc l IH]; intros li st; cbn [foldM].
  - unfold ret. eauto.
  - unfold bind.
    destruct (applyOne_returns fixupTypes st tc li) as (st1 & li1 & ->).
    apply IH.
Qed.

(** [applyTextChanges] is its loop followed by [consolidate]. *)
Lemma applyTextChanges_loop fileText textChanges fixupTypes li :
  (applyTextChanges createSourceFile) fileText textChanges fixupTypes li
  = bind (editLoop (applyTextChanges createSourceFile) fixupTypes fileText textChanges)
         (consolidate createSourceFile fixupTypes) li.
Proof. apply applyTextChanges_unfold. Qed.

End Rounds.

(** ** Edit correctness *)

Lemma substringFrom_0 (s : jsstring) : substringFrom s 0 = s.
Proof.
  rewrite substringFrom_suffix by (pose proof (strlen_nonneg s); lia).
  reflexivity.
Qed.

Lemma rewritten_no_match (newText : jsstring) :
  allMatches dynamicTypeRegex newText 0 = [] -> rewritten newText = newText.
Proof. intros E. unfold rewritten. rewrite E. apply substringFrom_0. Qed.

Lemma replace_no_match (s : jsstring) (r : list atom) (replacement : jsstring) :
  allMatches r s 0 = [] -> replace s r replacement = s.
Proof. intros E. unfold replace. now rewrite E. Qed.

(** The cleanup pattern matches the JSX import line and nothing else. *)
Lemma jsxImportRegex_complete prev typeOnly rest :
  exists caps,
    matchAtoms jsxImportRegex prev (jsxImportLine typeOnly ++ rest)
    = Some (caps, List.length (jsxImportLine typeOnly)).
Proof. destruct typeOnly; eexists; reflexivity. Qed.

Lemma litLoop_sound lit k : forall prev s caps n,
  litLoop lit k prev s = Some (caps, n) ->
  exists s' n',
    s = lit ++ s' /\ k (prevAfter prev lit) s' = Some (caps, n')
    /\ n = (List.length lit + n')%nat.
Proof.
  induction lit as [|c lit IH]; intros prev s caps n; cbn [litLoop].
  - intros H. exists s, n. auto.
  - destruct s as [|c' s]; [discriminate|].
    destruct (N.eqb_spec c c') as [<-|]; [|discriminate].
    intros H. apply consumed_Some in H as (n1 & H & ->).
    apply IH in H as (s' & n' & -> & H & ->).
    exists s', n'. repeat split; trivial.
Qed.

Lemma jsxImportRegex_parts :
  jsxImportRegex
  = map Chr (js "import {")
    ++ OptGroup (js " type")
       :: map Chr (js " JSX } from 'react/jsx-runtime';" ++ [newline]) ++ [].
Proof. reflexivity. Qed.

Lemma jsxImportRegex_sound prev s caps n :
  matchAtoms jsxImportRegex prev s = Some (caps, n) ->
  exists typeOnly rest, s = jsxImportLine typeOnly ++ rest.
Proof.
  rewrite jsxImportRegex_parts. intros H.
  apply matchAtoms_lit_sound in H as (s1 & n1 & -> & H & _).
  cbn [matchAtoms] in H.
  destruct (litLoop (js " type") _ _ s1) as [[caps1 n2]|] eqn:E.
  - apply litLoop_sound in E as (s2 & n3 & -> & E & _).
    apply matchAtoms_lit_sound in E as (s3 & n4 & -> & _ & _).
    exists true, s3. unfold jsxImportLine. now rewrite <- !app_assoc.
  - apply captured_Some in H as (caps' & H & _).
    apply matchAtoms_lit_sound in H as (s3 & n4 & -> & _ & _).
    exists false, s3. unfold jsxImportLine. now rewrite <- !app_assoc.
Qed.

Lemma allMatches_nil r s :
  allMatches r s 0 = [] <-> fst (exec r s 0) = None.
Proof.
  unfold allMatches. cbn [execAll].
  destruct (exec r s 0) as [[m|] li]; cbn [fst]; split;
    try reflexivity; discriminate.
Qed.

Lemma skipn_app_exact {A} (a b : list A) : skipn (List.length a) (a ++ b) = b.
Proof.
  rewrite skipn_app, skipn_all, Nat.sub_diag. reflexivity.
Qed.

Lemma exec_jsxImportLine s :
  hasJsxImportLine s <-> fst (exec jsxImportRegex s 0) <> None.
Proof.
  split.
  - intros (before & typeOnly & after & ->).
    destruct (jsxImportRegex_complete
                (charBefore (before ++ jsxImportLine typeOnly ++ after)
                   (List.length before)) typeOnly after) as (caps & Hm).
    set (s := before ++ jsxImportLine typeOnly ++ after) in *.
    assert (Hm' : matchAtoms jsxImportRegex (charBefore s (List.length before))
                    (skipn (List.length before) s)
                  = Some (caps, List.length (jsxImportLine typeOnly)))
      by (unfold s at 2; rewrite skipn_app_exact; exact Hm).
    destruct (exec_leftmost jsxImportRegex s 0 (List.length before) _
                ltac:(unfold s; rewrite length_app; lia) Hm')
      as (m & li' & E & _).
    now rewrite E.
  - destruct (exec jsxImportRegex s 0) as [[m|] li'] eqn:E;
      [|intros H; now contradiction H].
    intros _. apply exec_found, jsxImportRegex_sound in E
      as (typeOnly & rest & Hskip).
    exists (firstn (index m) s), typeOnly, rest.
    now rewrite <- Hskip, firstn_skipn.
Qed.

Lemma replace_without_jsxImportLine s :
  ~ hasJsxImportLine s -> replace s jsxImportRegex [] = s.
Proof.
  intros Hno. apply replace_no_match, allMatches_nil.
  destruct (fst (exec jsxImportRegex s 0)) eqn:E; [|reflexivity].
  exfalso. apply Hno, exec_jsxImportLine. congruence.
Qed.

Lemma allMatches_noDynamicReference s :
  noDynamicReference s -> allMatches dynamicTypeRegex s 0 = [].
Proof. intros H. apply allMatches_nil, exec_noDynamicReference, H. Qed.

Lemma noJsxImportLine_exec s :
  fst (exec jsxImportRegex s 0) = None -> ~ hasJsxImportLine s.
Proof. intros E H. now apply exec_jsxImportLine in H. Qed.

Section EditCorrectness.

Variable createSourceFile : jsstring -> list Statement.

(** When no replacement text holds a dynamic reference, the loop with
    [fixupTypes] on splices and records nothing, whatever [test] says. *)
Lemma editLoop_plain (l : list TextChange) :
  (forall e, In e l -> allMatches dynamicTypeRegex (newText e) 0 = []) ->
  forall fileText imports li,
    fst (foldM (applyOne (applyTextChanges createSourceFile) true) l
           (fileText, imports) li)
    = Returned (fold_left splice l fileText, imports).
Proof.
  induction l as [|tc l IH]; intros Hl fileText imports li; cbn [foldM].
  - reflexivity.
  - unfold bind.
    assert (Htc : allMatches dynamicTypeRegex (newText tc) 0 = [])
      by (apply Hl; now left).
    assert (E : exists li1,
               applyOne (applyTextChanges createSourceFile) true
                 (fileText, imports) tc li
               = (Returned (splice fileText tc, imports), li1)).
    { destruct (exec dynamicTypeRegex
                  (substring fileText (start (span tc)) (spanEnd tc)) li)
        as [[m|] li1] eqn:E.
      - rewrite (applyOne_suppressed _ _ _ _ _ _ _ E). eauto.
      - rewrite (applyOne_rewrite _ _ _ _ _ _ E).
        rewrite Htc, rewritten_no_match by trivial. simpl. eauto. }
    destruct E as (li1 & ->). cbn [fold_left].
    apply IH. intros e He. apply Hl. now right.
Qed.

(** C1, as the code has it: the edits must come in ascending order, each
    span ending at or before the start of the next (the loop walks the
    list backwards and does not sort).  Then the result is the
    reconstruction by hand; with [fixupTypes] on this needs the replacement
    texts free of dynamic references and the reconstruction free of the
    JSX import line, which the two other passes would change. *)
Theorem applyTextChanges_ascending
    (T : jsstring) (edits : list TextChange) (fixupTypes : bool) (li : nat) :
  ascendingDisjoint 0 edits (strlen T) ->
  (fixupTypes = true ->
   (forall e, In e edits -> noDynamicReference (newText e))
   /\ ~ hasJsxImportLine (reconstruct T 0 edits)) ->
  fst (applyTextChanges createSourceFile T edits fixupTypes li)
  = Returned (reconstruct T 0 edits).
Proof.
  intros Hasc Hfix.
  pose proof (fold_splice_ascending T edits 0 ltac:(lia) Hasc) as Hfold.
  cbn [Z.to_nat firstn app] in Hfold.
  destruct fixupTypes.
  - destruct (Hfix eq_refl) as [Hdyn Hjsx].
    rewrite applyTextChanges_loop. unfold bind, editLoop.
    pose proof (editLoop_plain (rev edits)
                  (fun e He => allMatches_noDynamicReference _
                                 (Hdyn e (proj2 (in_rev edits e) He)))
                  T [] li) as H.
    destruct (foldM _ _ _ li) as [[st|e] li1]; simpl in H;
      [|discriminate].
    inversion H; subst. cbn [consolidate List.length Nat.ltb Nat.leb].
    rewrite Hfold, replace_without_jsxImportLine by trivial. reflexivity.
  - rewrite applyTextChanges_false, Hfold. reflexivity.
Qed.

End EditCorrectness.

(** C1 as it is written fails for edits that are not in ascending order. *)
Lemma applyTextChanges_unsorted :
  let T := js "abcd" in
  let edits := [mkChange 2 1 (js "X"); mkChange 0 1 (js "YY")] in
  withinText T edits = true
  /\ pairwiseDisjoint edits = true
  /\ reconstruct T 0 (sortByStart edits) = js "YYbXd"
  /\ applyTextChanges lineParser T edits true 0%nat = (Returned (js "YYXcd"), 0%nat)
  /\ fst (applyTextChanges lineParser T edits true 0%nat)
     <> Returned (reconstruct T 0 (sortByStart edits)).
Proof.
  cbv zeta. repeat split; try (vm_compute; reflexivity).
  vm_compute. discriminate.
Qed.

(** C1 on the same text, the edits in ascending order. *)
Lemma applyTextChanges_ascending_witness :
  let T := js "abcd" in
  let edits := [mkChange 0 1 (js "YY"); mkChange 2 1 (js "X")] in
  fst (applyTextChanges lineParser T edits true 0%nat)
  = Returned (reconstruct T 0 edits).
Proof.
  cbv zeta. apply applyTextChanges_ascending.
  - vm_compute. repeat split; discriminate.
  - intros _. split.
    + intros e [<-|[<-|[]]]; apply noDynamicReference_exec;
        vm_compute; reflexivity.
    + apply noJsxImportLine_exec. vm_compute. reflexivity.
Defined.

(** ** After the loop: cleanup and insertion of the imports *)

Lemma at_last_None {A} (l : list A) : at_last l = None <-> l = [].
Proof.
  induction l as [|x l IH]; simpl.
  - tauto.
  - destruct l as [|y l].
    + split; discriminate.
    + rewrite IH. split; discriminate.
Qed.

Lemma at_last_app {A} (l : list A) (x : A) : at_last (l ++ [x]) = Some x.
Proof.
  induction l as [|y l IH]; [reflexivity|].
  cbn [app at_last]. destruct (l ++ [x]) as [|z l'] eqn:E; [|exact IH].
  destruct l; discriminate.
Qed.

Lemma importBlock_head (imports : ImportMap) :
  imports <> [] ->
  exists rest, importBlock imports = newline :: js "import {" ++ rest.
Proof.
  destruct imports as [|[module types] imports]; [congruence|]. intros _.
  unfold importBlock. cbn [map].
  destruct (map importLine imports) as [|l ls]; cbn [join importLine].
  - eexists. reflexivity.
  - eexists. cbn [app]. rewrite <- app_assoc. reflexivity.
Qed.

Section Consolidation.

Variable createSourceFile : jsstring -> list Statement.

Lemma consolidate_empty fixupTypes fileText li :
  consolidate createSourceFile fixupTypes (fileText, []) li
  = (Returned (cleaned fixupTypes fileText), li).
Proof. reflexivity. Qed.

Lemma consolidate_nonempty fixupTypes fileText imports li :
  imports <> [] ->
  consolidate createSourceFile fixupTypes (fileText, imports) li
  = match at_last (importStatementsOf createSourceFile (cleaned fixupTypes fileText)) with
    | None => (Thrown (AssertionError None), li)
    | Some lastImportStatement =>
        (Returned
           (substring (cleaned fixupTypes fileText) 0 (end_ lastImportStatement)
            ++ importBlock imports
            ++ substringFrom (cleaned fixupTypes fileText)
                 (end_ lastImportStatement)), li)
    end.
Proof.
  intros Hne. destruct imports as [|entry imports]; [congruence|].
  unfold consolidate, importStatementsOf, cleaned. cbn [List.length Nat.ltb Nat.leb].
  destruct (at_last _); reflexivity.
Qed.

(** C3, as the code has it: without edits the text comes back unchanged
    when [fixupTypes] is off; with it on (the default) the cleanup pass
    still runs and removes every JSX import line, so the text comes back
    unchanged when it has none. *)
Theorem applyTextChanges_no_edits (T : jsstring) (fixupTypes : bool) (li : nat) :
  applyTextChanges createSourceFile T [] fixupTypes li
  = (Returned (if fixupTypes then replace T jsxImportRegex [] else T), li)
  /\ (~ hasJsxImportLine T ->
      applyTextChanges createSourceFile T [] fixupTypes li = (Returned T, li)).
Proof.
  assert (H : applyTextChanges createSourceFile T [] fixupTypes li
              = (Returned (if fixupTypes then replace T jsxImportRegex [] else T),
                 li)) by reflexivity.
  split; [exact H|].
  intros E. rewrite H, replace_without_jsxImportLine by trivial.
  now destruct fixupTypes.
Qed.

(** C7: imports to add and no import declaration in the text: the call
    throws. *)
Theorem missing_imports_throw
    (T : jsstring) (edits : list TextChange) (fixupTypes : bool) (li : nat)
    (text : jsstring) (imports : ImportMap) (li' : nat) :
  editLoop (applyTextChanges createSourceFile) fixupTypes T edits li
  = (Returned (text, imports), li') ->
  imports <> [] ->
  importStatementsOf createSourceFile (cleaned fixupTypes text) = [] ->
  applyTextChanges createSourceFile T edits fixupTypes li
  = (Thrown (AssertionError None), li').
Proof.
  intros Hloop Hne Hnone.
  rewrite applyTextChanges_loop. unfold bind. rewrite Hloop.
  rewrite consolidate_nonempty by trivial. now rewrite Hnone.
Qed.

(** C8: the merged imports go in at the end offset of the last import
    declaration of the edited text, the one that comes after every other
    import declaration among the statements of the parser, as one block
    that starts with one newline, whatever the edits were. *)
Theorem imports_inserted_after_last_import
    (T : jsstring) (edits : list TextChange) (fixupTypes : bool) (li : nat)
    (text : jsstring) (imports : ImportMap) (li' : nat)
    (earlier : list Statement) (lastImportStatement : Statement) :
  editLoop (applyTextChanges createSourceFile) fixupTypes T edits li
  = (Returned (text, imports), li') ->
  imports <> [] ->
  importStatementsOf createSourceFile (cleaned fixupTypes text)
  = earlier ++ [lastImportStatement] ->
  0 <= end_ lastImportStatement <= strlen (cleaned fixupTypes text) ->
  applyTextChanges createSourceFile T edits fixupTypes li
  = (Returned
       (firstn (Z.to_nat (end_ lastImportStatement)) (cleaned fixupTypes text)
        ++ [newline] ++ join [newline] (map importLine imports)
        ++ skipn (Z.to_nat (end_ lastImportStatement))
             (cleaned fixupTypes text)), li')
  /\ exists rest,
      [newline] ++ join [newline] (map importLine imports)
      = newline :: js "import {" ++ rest.
Proof.
  intros Hloop Hne Hlast Hend. split.
  - rewrite applyTextChanges_loop. unfold bind. rewrite Hloop.
    rewrite consolidate_nonempty by trivial. rewrite Hlast, at_last_app.
    rewrite substring_prefix, substringFrom_suffix by trivial.
    unfold importBlock. now rewrite <- app_assoc.
  - now apply importBlock_head.
Qed.

(** C10: whatever the spans are, the call returns a string, except when
    imports were recorded and the text has no import declaration, where it
    throws. *)
Theorem applyTextChanges_total
    (T : jsstring) (edits : list TextChange) (fixupTypes : bool) (li : nat) :
  exists text imports li',
    editLoop (applyTextChanges createSourceFile) fixupTypes T edits li
    = (Returned (text, imports), li')
    /\ ((imports <> []
         /\ importStatementsOf createSourceFile (cleaned fixupTypes text) = []
         /\ applyTextChanges createSourceFile T edits fixupTypes li
            = (Thrown (AssertionError None), li'))
        \/ ((imports = [] \/ importStatementsOf createSourceFile (cleaned fixupTypes text) <> [])
            /\ exists result,
                applyTextChanges createSourceFile T edits fixupTypes li
                = (Returned result, li'))).
Proof.
  destruct (editLoop_returns createSourceFile fixupTypes T edits li)
    as ([text imports] & li' & Hloop).
  exists text, imports, li'. split; [exact Hloop|].
  rewrite applyTextChanges_loop. unfold bind. rewrite Hloop.
  destruct imports as [|entry imports].
  - right. split; [now left|]. rewrite consolidate_empty. eauto.
  - rewrite consolidate_nonempty by discriminate.
    destruct (at_last (importStatementsOf createSourceFile (cleaned fixupTypes text)))
      as [lastImportStatement|] eqn:E.
    + right. split; [|eauto]. right. intros Hnil. now rewrite Hnil in E.
    + left. apply at_last_None in E. repeat split; trivial. discriminate.
Qed.

End Consolidation.

(** C3 as it is written fails on a text that holds the JSX import line. *)
Lemma applyTextChanges_no_edits_cleanup :
  let T := js "import { JSX } from 'react/jsx-runtime';" ++ [newline]
           ++ js "const x = 1;" in
  applyTextChanges lineParser T [] true 0%nat
  = (Returned (js "const x = 1;"), 0%nat)
  /\ fst (applyTextChanges lineParser T [] true 0%nat) <> Returned T.
Proof.
  cbv zeta. split; [vm_compute; reflexivity|].
  vm_compute. discriminate.
Qed.

(** C3 on a text without the JSX import line. *)
Lemma applyTextChanges_no_edits_witness :
  applyTextChanges lineParser (js "const x = 1;") [] true 0%nat
  = (Returned (js "const x = 1;"), 0%nat).
Proof.
  apply (proj2 (applyTextChanges_no_edits lineParser (js "const x = 1;")
                  true 0%nat)).
  apply noJsxImportLine_exec. vm_compute. reflexivity.
Defined.

(** C7 on a text without import declaration, with one dynamic reference
    in the replacement text. *)
Lemma missing_imports_throw_witness :
  applyTextChanges lineParser (js "const x = f();")
    [mkChange 7 0 (js ": " ++ dyn "pkg/mod" "Foo")] true 0%nat
  = (Thrown (AssertionError None), 0%nat).
Proof.
  apply (missing_imports_throw lineParser _ _ _ _
           (js "const x: Foo = f();") [(js "pkg/mod", [js "Foo"])] 0%nat).
  - vm_compute. reflexivity.
  - discriminate.
  - vm_compute. reflexivity.
Defined.

(** C8 on a text with two import declarations: the block goes in after
    the second. *)
Lemma imports_inserted_after_last_import_witness :
  applyTextChanges lineParser
    (js "import a from 'a';" ++ [newline] ++ js "import b from 'b';"
     ++ [newline] ++ js "const x = f();")
    [mkChange 45 0 (js ": " ++ dyn "pkg/mod" "Foo")] true 0%nat
  = (Returned (js "import a from 'a';" ++ [newline]
               ++ js "import b from 'b';" ++ [newline]
               ++ js "import {Foo} from 'pkg/mod';" ++ [newline]
               ++ js "const x: Foo = f();"), 0%nat).
Proof.
  refine (eq_trans
            (proj1 (imports_inserted_after_last_import lineParser _ _ _ _
                      (js "import a from 'a';" ++ [newline]
                       ++ js "import b from 'b';" ++ [newline]
                       ++ js "const x: Foo = f();")
                      [(js "pkg/mod", [js "Foo"])] 0%nat
                      [{| kind := ImportDeclaration; pos := 0; end_ := 18 |}]
                      {| kind := ImportDeclaration; pos := 19; end_ := 37 |}
                      _ _ _ _)) _).
  - vm_compute. reflexivity.
  - discriminate.
  - vm_compute. reflexivity.
  - vm_compute. split; discriminate.
  - vm_compute. reflexivity.
Defined.

(** ** The map of imports *)

Lemma str_eqb_eq (a b : jsstring) : str_eqb a b = true <-> a = b.
Proof.
  revert b. induction a as [|x a IH]; intros [|y b]; simpl;
    try (split; [discriminate | congruence]); [tauto|].
  rewrite andb_true_iff, N.eqb_eq, IH. split.
  - intros [-> ->]. reflexivity.
  - intros H. inversion H. auto.
Qed.

Lemma str_eqb_refl (a : jsstring) : str_eqb a a = true.
Proof. now apply str_eqb_eq. Qed.

Lemma str_eqb_neq (a b : jsstring) : a <> b -> str_eqb a b = false.
Proof.
  intros H. destruct (str_eqb a b) eqn:E; [|reflexivity].
  apply str_eqb_eq in E. contradiction.
Qed.

Lemma set_has_app (a b : StringSet) (x : jsstring) :
  set_has (a ++ b) x = set_has a x || set_has b x.
Proof.
  induction a as [|y a IH]; simpl; [reflexivity|].
  now rewrite IH, orb_assoc.
Qed.

Lemma set_has_add (s : StringSet) (x y : jsstring) :
  set_has (set_add s x) y = set_has s y || str_eqb x y.
Proof.
  unfold set_add. destruct (set_has s x) eqn:E.
  - destruct (str_eqb x y) eqn:Exy; [|now rewrite orb_false_r].
    apply str_eqb_eq in Exy. subst. now rewrite E.
  - rewrite set_has_app. simpl. now rewrite orb_false_r.
Qed.

Lemma map_get_set_same (m : ImportMap) (k : jsstring) (v : StringSet) :
  map_get (map_set m k v) k = Some v.
Proof.
  induction m as [|[k' v'] m IH]; simpl.
  - now rewrite str_eqb_refl.
  - destruct (str_eqb k' k) eqn:E; simpl; now rewrite E.
Qed.

Lemma map_get_set_other (m : ImportMap) (k k' : jsstring) (v : StringSet) :
  k <> k' -> map_get (map_set m k v) k' = map_get m k'.
Proof.
  intros Hne. induction m as [|[k0 v0] m IH]; simpl.
  - now rewrite str_eqb_neq.
  - destruct (str_eqb k0 k) eqn:E; simpl.
    + apply str_eqb_eq in E. subst. now rewrite str_eqb_neq.
    + now rewrite IH.
Qed.

Lemma map_has_get (m : ImportMap) (k : jsstring) :
  map_has m k = match map_get m k with Some _ => true | None => false end.
Proof.
  induction m as [|[k' v'] m IH]; simpl; [reflexivity|].
  destruct (str_eqb k' k); simpl; [reflexivity | exact IH].
Qed.

Lemma addImport_recorded (imports : ImportMap) (module type : jsstring) :
  recorded (addImport imports module type) module type.
Proof.
  unfold recorded, addImport, map_add_to. rewrite map_has_get.
  destruct (map_get imports module) as [v|] eqn:E; cbn [negb].
  - rewrite E. exists (set_add v type). rewrite map_get_set_same, set_has_add.
    now rewrite str_eqb_refl, orb_true_r.
  - rewrite map_get_set_same. exists (set_add [] type).
    rewrite map_get_set_same, set_has_add.
    now rewrite str_eqb_refl, orb_true_r.
Qed.

Lemma addImport_keeps (imports : ImportMap) (module type k x : jsstring) :
  recorded imports k x -> recorded (addImport imports module type) k x.
Proof.
  intros (ts & Hget & Hhas). unfold recorded, addImport, map_add_to.
  rewrite map_has_get.
  destruct (list_eq_dec N.eq_dec module k) as [->|Hne].
  - rewrite Hget. cbn [negb]. rewrite Hget.
    exists (set_add ts type). rewrite map_get_set_same, set_has_add.
    now rewrite Hhas.
  - exists ts. split; [|exact Hhas].
    destruct (map_get imports module) as [v|] eqn:E; cbn [negb].
    + rewrite E. now rewrite map_get_set_other.
    + rewrite map_get_set_same. now rewrite !map_get_set_other.
Qed.

Lemma recordAll_keeps (ms : list RegExpMatch) : forall imports k x,
  recorded imports k x -> recorded (recordAll imports ms) k x.
Proof.
  induction ms as [|m ms IH]; intros imports k x H; simpl; [exact H|].
  apply IH, addImport_keeps, H.
Qed.

Lemma recordAll_recorded (ms : list RegExpMatch) : forall imports m,
  In m ms -> recorded (recordAll imports ms) (moduleOf m) (typeOf m).
Proof.
  induction ms as [|m0 ms IH]; intros imports m Hin; [destruct Hin|].
  destruct Hin as [<-|Hin]; simpl.
  - apply recordAll_keeps, addImport_recorded.
  - now apply IH.
Qed.

Lemma recordAll_pairs (ms : list RegExpMatch) : forall imports,
  recordAll imports ms = recordPairs imports (map capturedPair ms).
Proof.
  induction ms as [|m ms IH]; intros imports; simpl; [reflexivity|].
  apply IH.
Qed.

Lemma filter_filter {A} (f g : A -> bool) (l : list A) :
  filter f (filter g l) = filter (fun a => g a && f a) l.
Proof.
  induction l as [|a l IH]; simpl; [reflexivity|].
  destruct (g a); simpl; [destruct (f a)|]; now rewrite IH.
Qed.

Lemma fold_set_add (l : list jsstring) : forall acc,
  fold_left set_add l acc
  = acc ++ filter (fun y => negb (set_has acc y)) (firstSeen l).
Proof.
  induction l as [|x l IH]; intros acc; cbn [fold_left firstSeen filter].
  - now rewrite app_nil_r.
  - rewrite IH, filter_filter. unfold set_add.
    destruct (set_has acc x) eqn:Hx; cbn [negb].
    + f_equal. apply filter_ext. intros y.
      destruct (set_has acc y) eqn:Hy; cbn [negb]; [now rewrite andb_false_r|].
      rewrite andb_true_r. destruct (str_eqb x y) eqn:E; [|reflexivity].
      apply str_eqb_eq in E. congruence.
    + rewrite <- app_assoc. cbn [app]. do 2 f_equal.
      apply filter_ext. intros y. rewrite set_has_app. cbn [set_has].
      rewrite orb_false_r, negb_orb. apply andb_comm.
Qed.

Lemma firstSeen_fold (l : list jsstring) : fold_left set_add l [] = firstSeen l.
Proof.
  rewrite fold_set_add. cbn [app set_has negb].
  induction (firstSeen l) as [|y t IH]; simpl; [reflexivity | now rewrite IH].
Qed.

Lemma map_has_keys (m : ImportMap) (k : jsstring) :
  set_has (map fst m) k = map_has m k.
Proof.
  induction m as [|[k' v] m IH]; simpl; [reflexivity | now rewrite IH].
Qed.

Lemma map_set_keys (m : ImportMap) (k : jsstring) (v : StringSet) :
  map fst (map_set m k v)
  = if map_has m k then map fst m else map fst m ++ [k].
Proof.
  induction m as [|[k' v'] m IH]; simpl; [reflexivity|].
  destruct (str_eqb k' k); simpl; [reflexivity|].
  rewrite IH. now destruct (map_has m k).
Qed.

Lemma map_add_to_keys (m : ImportMap) (k x : jsstring) :
  map fst (map_add_to m k x) = map fst m.
Proof.
  unfold map_add_to. destruct (map_get m k) as [v|] eqn:E; [|reflexivity].
  now rewrite map_set_keys, map_has_get, E.
Qed.

Lemma addImport_keys (imports : ImportMap) (module type : jsstring) :
  map fst (addImport imports module type) = set_add (map fst imports) module.
Proof.
  unfold addImport, set_add. rewrite map_add_to_keys, map_has_keys.
  destruct (map_has imports module) eqn:H; cbn [negb]; [reflexivity|].
  now rewrite map_set_keys, H.
Qed.

Lemma recordPairs_keys (pairs : list (jsstring * jsstring)) : forall imports,
  map fst (recordPairs imports pairs)
  = fold_left set_add (map fst pairs) (map fst imports).
Proof.
  induction pairs as [|[k x] pairs IH]; intros imports; cbn; [reflexivity|].
  unfold recordPairs in IH. now rewrite IH, addImport_keys.
Qed.

(** The modules of the map are those asked for, in the order they were
    first asked for. *)
Lemma recordPairs_modules (pairs : list (jsstring * jsstring)) :
  map fst (recordPairs [] pairs) = firstSeen (map fst pairs).
Proof. rewrite recordPairs_keys. apply firstSeen_fold. Qed.

Lemma addImport_get (imports : ImportMap) (module type k : jsstring) :
  map_get (addImport imports module type) k
  = if str_eqb module k
    then Some (set_add (match map_get imports module with
                        | Some v => v
                        | None => []
                        end) type)
    else map_get imports k.
Proof.
  unfold addImport, map_add_to. rewrite map_has_get.
  destruct (str_eqb module k) eqn:Ek.
  - apply str_eqb_eq in Ek. subst k.
    destruct (map_get imports module) as [v|] eqn:E; cbn [negb].
    + now rewrite E, map_get_set_same.
    + now rewrite !map_get_set_same.
  - assert (Hne : module <> k).
    { intros ->. now rewrite str_eqb_refl in Ek. }
    destruct (map_get imports module) as [v|] eqn:E; cbn [negb].
    + rewrite E. now rewrite map_get_set_other.
    + rewrite map_get_set_same. now rewrite !map_get_set_other.
Qed.

Lemma recordPairs_get (pairs : list (jsstring * jsstring)) (k : jsstring) :
  forall imports,
    map_get (recordPairs imports pairs) k
    = match typesFor k pairs with
      | [] => map_get imports k
      | types =>
          Some (fold_left set_add types
                  (match map_get imports k with Some v => v | None => [] end))
      end.
Proof.
  induction pairs as [|[module type] pairs IH]; intros imports; [reflexivity|].
  change (recordPairs imports ((module, type) :: pairs))
    with (recordPairs (addImport imports module type) pairs).
  rewrite IH, addImport_get. unfold typesFor. cbn [filter fst].
  destruct (str_eqb module k) eqn:Ek; cbn [map snd fold_left].
  - apply str_eqb_eq in Ek. subst k.
    now destruct (map snd (filter _ pairs)).
  - reflexivity.
Qed.

(** The names of a module are those asked from it, in the order they were
    first asked. *)
Lemma recordPairs_types (pairs : list (jsstring * jsstring)) (module : jsstring) :
  map_get (recordPairs [] pairs) module
  = match typesFor module pairs with
    | [] => None
    | types => Some (firstSeen types)
    end.
Proof.
  rewrite recordPairs_get. cbn [map_get].
  destruct (typesFor module pairs) as [|t ts] eqn:E; [reflexivity|].
  now rewrite firstSeen_fold.
Qed.

(** ** Rewriting of dynamic references and the order of the imports *)

Section Rewriting.

Variable createSourceFile : jsstring -> list Statement.

(** C5, as the code has it: a dynamic reference is the keyword [import] at
    a word boundary, a parenthesised module path in double quotes, a dot
    and a name; a text with another word in place of [import] is left
    alone.  For an edit whose old text holds no dynamic reference, the
    matches of the replacement text, in order and without overlap, give
    way to their names, and every (module, name) pair is recorded.  Each
    match is a dynamic reference, and every dynamic reference of the
    replacement text is one of the matches unless it begins inside one.
    The example of the claim, with the keyword in place, is rewritten as
    the claim says. *)
Theorem dynamic_references_rewritten
    (fileText : jsstring) (imports : ImportMap) (tc : TextChange) (li : nat) :
  noDynamicReference (substring fileText (start (span tc)) (spanEnd tc)) ->
  let ms := allMatches dynamicTypeRegex (newText tc) 0 in
  applyOne (applyTextChanges createSourceFile) true (fileText, imports) tc li
  = (Returned (substring fileText 0 (start (span tc))
               ++ reconstruct (newText tc) 0 (map changeOf ms)
               ++ substringFrom fileText (spanEnd tc),
               recordAll imports ms), 0%nat)
  /\ ascendingDisjoint 0 (map changeOf ms) (strlen (newText tc))
  /\ (forall m, In m ms ->
        dynamicReferenceAt (newText tc) (index m) (moduleOf m) (typeOf m)
        /\ changeOf m
           = mkChange (Z.of_nat (index m))
               (strlen (dynamicReference (moduleOf m) (typeOf m))) (typeOf m)
        /\ recorded (recordAll imports ms) (moduleOf m) (typeOf m))
  /\ (forall i module type,
        dynamicReferenceAt (newText tc) i module type ->
        exists m,
          In m ms
          /\ ((index m = i /\ moduleOf m = module /\ typeOf m = type)
              \/ (index m < i < index m + List.length (matchText m))%nat))
  /\ rewritten importExample = js "const x: Foo = y;"
  /\ recordAll [] (allMatches dynamicTypeRegex importExample 0)
     = [(js "pkg/mod", [js "Foo"])].
Proof.
  intros Hold ms. apply (exec_noDynamicReference _ li) in Hold.
  destruct (exec dynamicTypeRegex _ li) as [o li1] eqn:E.
  simpl in Hold. subst o.
  split; [|split; [|split; [|split; [|split]]]].
  - apply (applyOne_rewrite _ _ _ _ _ _ E).
  - apply (changes_ascending _ _ 0%nat); [lia | apply execAll_ascending].
  - intros m Hm.
    pose proof (execAll_matchIn dynamicTypeRegex (newText tc)
                  (S (List.length (newText tc))) 0) as HF.
    rewrite Forall_forall in HF.
    destruct (matchIn_dynamicReference _ _ (HF m Hm)) as [Hat Htext].
    split; [exact Hat|]. split.
    + unfold changeOf, mkChange. now rewrite Htext.
    + now apply recordAll_recorded.
  - intros i module type. apply allMatches_every_reference.
  - vm_compute. reflexivity.
  - vm_compute. reflexivity.
Qed.

(** C2: the edit processed first asks for [X] from [m1], the edit
    processed second for [Y] and [Z] from [m2]; the loop goes through
    [textChanges] backwards, so the first is the last of the list.  The
    block has the line of [m1] before the line of [m2], and it goes in at
    the end of the last import declaration.  For any sequence of recorded
    pairs the modules come in the order they were first seen, and so do
    the names of each module. *)
Theorem import_block_order (T : jsstring) (A B : TextChange) (li : nat) :
  let T1 := substring T 0 (start (span A)) ++ rewritten (newText A)
            ++ substringFrom T (spanEnd A) in
  let text := substring T1 0 (start (span B)) ++ rewritten (newText B)
              ++ substringFrom T1 (spanEnd B) in
  let imports := [(js "m1", [js "X"]); (js "m2", [js "Y"; js "Z"])] in
  fst (exec dynamicTypeRegex
         (substring T (start (span A)) (spanEnd A)) li) = None ->
  map capturedPair (allMatches dynamicTypeRegex (newText A) 0)
  = [(js "m1", js "X")] ->
  fst (exec dynamicTypeRegex
         (substring T1 (start (span B)) (spanEnd B)) 0) = None ->
  map capturedPair (allMatches dynamicTypeRegex (newText B) 0)
  = [(js "m2", js "Y"); (js "m2", js "Z")] ->
  editLoop (applyTextChanges createSourceFile) true T [B; A] li
  = (Returned (text, imports), 0%nat)
  /\ importBlock imports
     = [newline] ++ js "import {X} from 'm1';"
       ++ [newline] ++ js "import {Y, Z} from 'm2';"
  /\ (forall pairs, map fst (recordPairs [] pairs) = firstSeen (map fst pairs))
  /\ (forall pairs module,
        map_get (recordPairs [] pairs) module
        = match typesFor module pairs with
          | [] => None
          | types => Some (firstSeen types)
          end)
  /\ forall lastImportStatement,
      at_last (importStatementsOf createSourceFile
                 (replace text jsxImportRegex []))
      = Some lastImportStatement ->
      applyTextChanges createSourceFile T [B; A] true li
      = (Returned
           (substring (replace text jsxImportRegex []) 0
              (end_ lastImportStatement)
            ++ ([newline] ++ js "import {X} from 'm1';"
                ++ [newline] ++ js "import {Y, Z} from 'm2';")
            ++ substringFrom (replace text jsxImportRegex [])
                 (end_ lastImportStatement)), 0%nat).
Proof.
  intros T1 text imports HAold HAnew HBold HBnew.
  assert (Hloop : editLoop (applyTextChanges createSourceFile) true T [B; A] li
                  = (Returned (text, imports), 0%nat)).
  { unfold editLoop. cbn [rev app foldM]. unfold bind.
    destruct (exec dynamicTypeRegex
                (substring T (start (span A)) (spanEnd A)) li)
      as [oA liA] eqn:EA.
    simpl in HAold. subst oA.
    rewrite (applyOne_rewrite _ _ _ _ _ _ EA). fold T1.
    destruct (exec dynamicTypeRegex
                (substring T1 (start (span B)) (spanEnd B)) 0)
      as [oB liB] eqn:EB.
    simpl in HBold. subst oB.
    rewrite (applyOne_rewrite _ _ _ _ _ _ EB). fold text.
    rewrite !recordAll_pairs, HAnew, HBnew. reflexivity. }
  assert (Hblock : importBlock imports
                   = [newline] ++ js "import {X} from 'm1';"
                     ++ [newline] ++ js "import {Y, Z} from 'm2';")
    by (vm_compute; reflexivity).
  split; [exact Hloop|]. split; [exact Hblock|].
  split; [exact recordPairs_modules|]. split; [exact recordPairs_types|].
  intros lastImportStatement Hlast.
  rewrite applyTextChanges_loop. unfold bind. rewrite Hloop.
  rewrite consolidate_nonempty by discriminate.
  unfold cleaned. rewrite Hlast, Hblock. reflexivity.
Qed.

End Rewriting.

(** C5 as it is written fails on its own example: the text with [lookup]
    in place of the keyword has no match, so it goes in as it is and
    nothing is recorded. *)
Lemma lookup_reference_not_rewritten :
  let T := js "import a from 'a';" ++ [newline] ++ js "const x = y;" in
  let tc := mkChange 19 12 lookupExample in
  fst (exec dynamicTypeRegex (substring T 19 31) 0) = None
  /\ editLoop (applyTextChanges lineParser) true T [tc] 0%nat
     = (Returned (js "import a from 'a';" ++ [newline] ++ lookupExample, []),
        0%nat)
  /\ fst (editLoop (applyTextChanges lineParser) true T [tc] 0%nat)
     <> Returned (js "import a from 'a';" ++ [newline] ++ js "const x: Foo = y;",
                  [(js "pkg/mod", [js "Foo"])]).
Proof.
  cbv zeta. repeat split; try (vm_compute; reflexivity).
  vm_compute. discriminate.
Qed.

(** C5 on its example, with the keyword in place. *)
Lemma dynamic_references_rewritten_witness :
  let T := js "import a from 'a';" ++ [newline] ++ js "const x = y;" in
  applyOne (applyTextChanges lineParser) true (T, [])
    (mkChange 19 12 importExample) 0%nat
  = (Returned (js "import a from 'a';" ++ [newline] ++ js "const x: Foo = y;",
               [(js "pkg/mod", [js "Foo"])]), 0%nat).
Proof.
  cbv zeta.
  refine (eq_trans
            (proj1 (dynamic_references_rewritten lineParser _ [] _ 0%nat _)) _).
  - apply noDynamicReference_exec. vm_compute. reflexivity.
  - vm_compute. reflexivity.
Defined.

(** C2 on two insertions, the one of [m1] last in the list. *)
Lemma import_block_order_witness :
  let T := js "import a from 'a';" ++ [newline] ++ js "f(); g();" in
  let A := mkChange 27 0 (js ": " ++ dyn "m1" "X") in
  let B := mkChange 22 0 (js ": " ++ dyn "m2" "Y" ++ js " | " ++ dyn "m2" "Z") in
  applyTextChanges lineParser T [B; A] true 0%nat
  = (Returned (js "import a from 'a';" ++ [newline]
               ++ js "import {X} from 'm1';" ++ [newline]
               ++ js "import {Y, Z} from 'm2';" ++ [newline]
               ++ js "f(): Y | Z; g(): X;"), 0%nat).
Proof.
  cbv zeta.
  refine (eq_trans
            (proj2 (proj2 (proj2 (proj2
               (import_block_order lineParser _ _ _ 0%nat _ _ _ _))))
               {| kind := ImportDeclaration; pos := 0; end_ := 18 |} _) _);
    vm_compute; reflexivity.
Defined.

(** ** The state of the shared pattern *)

(** C4 fails on the code.  The old text of the edit is a dynamic
    reference, so the first call leaves the replacement text as it is, and
    [test] leaves [lastIndex] at 13, the end of its match.  The second
    call, with the same arguments, starts its [test] from there, finds
    nothing, rewrites the replacement text and asks for an import: it
    throws or returns another text, whatever the parser gives. *)
Theorem applyTextChanges_keeps_lastIndex
    (createSourceFile : jsstring -> list Statement) :
  applyTextChanges createSourceFile stateExampleText stateExampleEdits true 0%nat
  = (Returned stateExampleFirst, 13%nat)
  /\ fst (applyTextChanges createSourceFile stateExampleText stateExampleEdits
            true 13%nat)
     <> fst (applyTextChanges createSourceFile stateExampleText
               stateExampleEdits true 0%nat)
  /\ applyTextChanges lineParser stateExampleText stateExampleEdits true 13%nat
     = (Returned (js "import a from 'a';" ++ [newline]
                  ++ js "import {B} from 'a';" ++ [newline]
                  ++ js "const x: B | null = f();"), 0%nat).
Proof.
  assert (H1 : applyTextChanges createSourceFile stateExampleText
                 stateExampleEdits true 0%nat
               = (Returned stateExampleFirst, 13%nat)).
  { rewrite applyTextChanges_loop. unfold bind.
    replace (editLoop (applyTextChanges createSourceFile) true
               stateExampleText stateExampleEdits 0%nat)
      with (@Returned (jsstring * ImportMap) (stateExampleFirst, []), 13%nat)
      by (vm_compute; reflexivity).
    vm_compute. reflexivity. }
  split; [exact H1|]. split; [|vm_compute; reflexivity].
  rewrite H1. cbn [fst].
  rewrite applyTextChanges_loop. unfold bind.
  replace (editLoop (applyTextChanges createSourceFile) true
             stateExampleText stateExampleEdits 13%nat)
    with (@Returned (jsstring * ImportMap)
            (stateExampleRewritten, [(js "a", [js "B"])]), 0%nat)
    by (vm_compute; reflexivity).
  rewrite consolidate_nonempty by discriminate.
  destruct (at_last _) as [lastImportStatement|]; cbn [fst]; [|discriminate].
  intros Htext.
  apply (f_equal (fun o => match o with
                           | Returned result => List.length result
                           | Thrown _ => 0%nat
                           end)) in Htext.
  cbv beta iota in Htext.
  pose proof (f_equal (@List.length char)
                (substring_whole (cleaned true stateExampleRewritten)
                   (end_ lastImportStatement))) as Hwhole.
  repeat rewrite length_app in Htext. rewrite length_app in Hwhole.
  replace (List.length (cleaned true stateExampleRewritten)) with 43%nat
    in Hwhole by (vm_compute; reflexivity).
  replace (List.length (importBlock [(js "a", [js "B"])])) with 21%nat
    in Htext by (vm_compute; reflexivity).
  replace (List.length stateExampleFirst) with 55%nat
    in Htext by (vm_compute; reflexivity).
  lia.
Qed.

(** C6 fails on the code.  Both edits replace a dynamic reference.  The
    second is processed first: its old text matches, the replacement goes
    in as it is and [lastIndex] is left at 13.  The [test] of the first
    edit starts from there, past the reference in its 13 code units of old
    text, and finds nothing: the replacement text is rewritten and the
    pair recorded. *)
Theorem suppression_misses_after_match
    (createSourceFile : jsstring -> list Statement) :
  Forall (fun tc =>
            dynamicReferenceAt
              (substring suppressionExampleText (start (span tc)) (spanEnd tc))
              0 (js "a") (js "B"))
         suppressionExampleEdits
  /\ editLoop (applyTextChanges createSourceFile) true
       suppressionExampleText suppressionExampleEdits 0%nat
     = (Returned (js "type P = B | null;" ++ [newline]
                  ++ js "type Q = " ++ dynB ++ js " | null;",
                  [(js "a", [js "B"])]), 0%nat)
  /\ fst (editLoop (applyTextChanges createSourceFile) true
            suppressionExampleText suppressionExampleEdits 0%nat)
     <> Returned (fold_left splice (rev suppressionExampleEdits)
                    suppressionExampleText, []).
Proof.
  split; [|split].
  - assert (Hat : dynamicReferenceAt dynB 0 (js "a") (js "B")).
    { repeat split; try discriminate. exists []. split; [|exact I].
      symmetry. apply app_nil_r. }
    constructor; [exact Hat|]. constructor; [exact Hat | constructor].
  - vm_compute. reflexivity.
  - vm_compute. discriminate.
Qed.

(** ** The fix discovery loop *)

Section FixDiscoveryProperties.

Variable relative : jsstring -> jsstring -> jsstring.
Variable getCombinedCodeFix : jsstring -> list FileTextChanges.

Lemma genLoop_app program files (before after : list SourceFile) :
  genLoop relative getCombinedCodeFix program files (before ++ after)
  = match genLoop relative getCombinedCodeFix program files before with
    | (yielded, None) =>
        let '(yielded', thrown) :=
          genLoop relative getCombinedCodeFix program files after in
        (yielded ++ yielded', thrown)
    | (yielded, Some e) => (yielded, Some e)
    end.
Proof.
  induction before as [|file before IH]; cbn [app genLoop].
  - now destruct (genLoop _ _ _ _ after).
  - destruct (testOnce nodeModulesRegex (fileName file)); [exact IH|].
    destruct (isDeclarationFile file); [exact IH|].
    destruct (match files with Some _ => _ | None => _ end); [exact IH|].
    destruct (getCombinedCodeFix _) as [|first [|second rest]];
      cbn [List.length Nat.eqb Nat.ltb Nat.leb].
    + exact IH.
    + rewrite IH.
      destruct (genLoop _ _ _ _ before) as [yielded [e|]]; [reflexivity|].
      now destruct (genLoop _ _ _ _ after).
    + reflexivity.
Qed.

Lemma genLoop_eligible program files file rest :
  eligible relative program files file ->
  genLoop relative getCombinedCodeFix program files (file :: rest)
  = match getCombinedCodeFix (relativePathOf relative program file) with
    | [] => genLoop relative getCombinedCodeFix program files rest
    | [first] =>
        let '(yielded, thrown) :=
          genLoop relative getCombinedCodeFix program files rest in
        ({| fixFileName := relativePathOf relative program file;
            fixTextChanges := textChanges first |} :: yielded, thrown)
    | _ :: _ :: _ =>
        ([], Some (AssertionError
                     (Some (js "Multiple fixes found for "
                            ++ relativePathOf relative program file))))
    end.
Proof.
  intros (Hnode & Hdecl & Hfiles). cbn [genLoop].
  rewrite Hnode, Hdecl. fold (relativePathOf relative program file).
  replace (match files with
           | Some set => negb (set_has set (relativePathOf relative program file))
           | None => false
           end) with false by (destruct files; [now rewrite Hfiles | reflexivity]).
  now destruct (getCombinedCodeFix _) as [|first [|second more]].
Qed.

(** C9: a fix without changes skips the file; a fix with more than one
    change stops the generator with an assertion error, so that neither
    this file nor a later one is yielded. *)
Theorem fix_discovery_zero_or_many
    (cwd : jsstring) (files : option (list jsstring))
    (before after : list SourceFile) (file : SourceFile) :
  let program sourceFiles :=
    {| getSourceFiles := sourceFiles; getCurrentDirectory := cwd |} in
  let relativePath := relative cwd (fileName file) in
  eligible relative (program []) files file ->
  (getCombinedCodeFix relativePath = [] ->
   genCodeFixesFromProject relative
     (Some (program (before ++ file :: after))) getCombinedCodeFix files
   = genCodeFixesFromProject relative
       (Some (program (before ++ after))) getCombinedCodeFix files)
  /\ ((1 < List.length (getCombinedCodeFix relativePath))%nat ->
      forall yielded,
        genCodeFixesFromProject relative
          (Some (program before)) getCombinedCodeFix files
        = (yielded, None) ->
        genCodeFixesFromProject relative
          (Some (program (before ++ file :: after))) getCombinedCodeFix files
        = (yielded,
           Some (AssertionError
                   (Some (js "Multiple fixes found for " ++ relativePath))))).
Proof.
  intros program relativePath Hel.
  assert (Hprog : forall l1 l2 l,
             genLoop relative getCombinedCodeFix (program l1) files l
             = genLoop relative getCombinedCodeFix (program l2) files l).
  { intros l1 l2 l. induction l as [|f l IH]; cbn [genLoop]; [reflexivity|].
    cbn [getCurrentDirectory program]. now rewrite !IH. }
  unfold genCodeFixesFromProject. cbn [getSourceFiles program].
  split.
  - intros Hzero.
    rewrite !genLoop_app.
    rewrite (Hprog _ [] (file :: after)), (genLoop_eligible _ _ _ _ Hel).
    unfold relativePathOf. cbn [getCurrentDirectory program].
    fold relativePath. rewrite Hzero.
    rewrite (Hprog (before ++ file :: after) (before ++ after) before).
    now rewrite (Hprog [] (before ++ after) after).
  - intros Hmany yielded Hbefore.
    rewrite genLoop_app.
    rewrite (Hprog _ before before), Hbefore.
    rewrite (Hprog _ [] (file :: after)), (genLoop_eligible _ _ _ _ Hel).
    unfold relativePathOf. cbn [getCurrentDirectory program].
    fold relativePath.
    destruct (getCombinedCodeFix relativePath) as [|first [|second more]];
      cbn [List.length] in Hmany; try lia.
    now rewrite app_nil_r.
Qed.

End FixDiscoveryProperties.

(** C9 on three files, the second with no change, then with two. *)
Lemma fix_discovery_zero_or_many_witness :
  genCodeFixesFromProject sampleRelative
    (sampleProgram [sampleFile "src/a.ts"; sampleFile "src/empty.ts";
                    sampleFile "src/b.ts"]) sampleService None
  = genCodeFixesFromProject sampleRelative
      (sampleProgram [sampleFile "src/a.ts"; sampleFile "src/b.ts"])
      sampleService None
  /\ genCodeFixesFromProject sampleRelative
       (sampleProgram [sampleFile "src/a.ts"; sampleFile "src/twice.ts";
                       sampleFile "src/b.ts"]) sampleService None
     = ([ {| fixFileName := js "src/a.ts";
             fixTextChanges := [mkChange 0 0 (js ": number")] |} ],
        Some (AssertionError
                (Some (js "Multiple fixes found for src/twice.ts")))).
Proof.
  split.
  - apply (proj1 (fix_discovery_zero_or_many sampleRelative sampleService
                    (js "/repo") None [sampleFile "src/a.ts"]
                    [sampleFile "src/b.ts"] (sampleFile "src/empty.ts")
                    ltac:(vm_compute; auto))).
    vm_compute. reflexivity.
  - apply (proj2 (fix_discovery_zero_or_many sampleRelative sampleService
                    (js "/repo") None [sampleFile "src/a.ts"]
                    [sampleFile "src/b.ts"] (sampleFile "src/twice.ts")
                    ltac:(vm_compute; auto))).
    + vm_compute. lia.
    + vm_compute. reflexivity.
Defined.

(** * Further properties *)

(** ** The span edit applier with [fixupTypes] off *)

Lemma strlen_app (a b : jsstring) : strlen (a ++ b) = strlen a + strlen b.
Proof. unfold strlen. rewrite length_app. lia. Qed.

Lemma strlen_substring (s : jsstring) (a b : Z) :
  0 <= a <= b -> b <= strlen s -> strlen (substring s a b) = b - a.
Proof.
  intros Ha Hb. rewrite substring_slice by trivial. unfold strlen in *.
  rewrite length_firstn, length_skipn. lia.
Qed.

Lemma strlen_substringFrom (s : jsstring) (a : Z) :
  0 <= a <= strlen s -> strlen (substringFrom s a) = strlen s - a.
Proof.
  intros Ha. unfold substringFrom. apply strlen_substring; lia.
Qed.

Section SpliceProperties.

Variable createSourceFile : jsstring -> list Statement.

(** X1: Applying a list of edits is applying its later part first and its
    earlier part to the result, for any spans; the call returns and leaves
    [lastIndex] alone. *)
Theorem applyTextChanges_app
    (T : jsstring) (edits1 edits2 : list TextChange) (li : nat) :
  exists T2,
    applyTextChanges createSourceFile T edits2 false li = (Returned T2, li)
    /\ applyTextChanges createSourceFile T (edits1 ++ edits2) false li
       = applyTextChanges createSourceFile T2 edits1 false li.
Proof.
  exists (fold_left splice (rev edits2) T).
  rewrite !applyTextChanges_false. split; [reflexivity|].
  now rewrite rev_app_distr, fold_left_app.
Qed.

Lemma substring_three (T : jsstring) (a b : Z) :
  0 <= a <= b -> b <= strlen T ->
  substring T 0 a ++ substring T a b ++ substringFrom T b = T.
Proof.
  intros Ha Hb.
  rewrite substring_prefix, substringFrom_suffix, substring_slice by lia.
  rewrite <- (firstn_skipn (Z.to_nat a) T) at 4. f_equal.
  rewrite <- (firstn_skipn (Z.to_nat (b - a)) (skipn (Z.to_nat a) T)) at 2.
  f_equal. rewrite skipn_skipn. f_equal. lia.
Qed.

Lemma splice_inverse (T : jsstring) (tc : TextChange) :
  inRange T tc -> splice (splice T tc) (inverseChange T tc) = T.
Proof.
  intros (Hs & Hl & He). unfold spanEnd in He.
  pose proof (strlen_nonneg (newText tc)) as Hn.
  unfold splice, inverseChange, mkChange, spanEnd.
  cbn [start length span newText].
  set (s := start (span tc)) in *. set (l := length (span tc)) in *.
  set (P := substring T 0 s). set (Q := substringFrom T (s + l)).
  assert (HP : strlen P = s) by (unfold P; rewrite strlen_substring; lia).
  assert (HPn : List.length P = Z.to_nat s) by (unfold strlen in HP; lia).
  pose proof (strlen_nonneg Q) as HQ.
  assert (Hlen : strlen (P ++ newText tc ++ Q)
                 = s + strlen (newText tc) + strlen Q)
    by (rewrite !strlen_app; lia).
  assert (H1 : substring (P ++ newText tc ++ Q) 0 s = P).
  { rewrite substring_prefix by lia.
    rewrite firstn_app, HPn, Nat.sub_diag, firstn_all2 by lia.
    apply app_nil_r. }
  assert (H2 : substringFrom (P ++ newText tc ++ Q) (s + strlen (newText tc))
               = Q).
  { rewrite substringFrom_suffix by lia.
    replace (Z.to_nat (s + strlen (newText tc)))
      with (List.length (P ++ newText tc))
      by (rewrite length_app; unfold strlen; lia).
    rewrite app_assoc, skipn_app, skipn_all, Nat.sub_diag. reflexivity. }
  rewrite H1, H2. unfold P, Q. apply substring_three; lia.
Qed.

(** X2: An edit inside the text is undone by the edit that puts the old text
    back in place of the new one. *)
Theorem applyTextChanges_undo (T : jsstring) (tc : TextChange) (li : nat) :
  inRange T tc ->
  exists T',
    applyTextChanges createSourceFile T [tc] false li = (Returned T', li)
    /\ applyTextChanges createSourceFile T' [inverseChange T tc] false li
       = (Returned T, li).
Proof.
  intros Hin. exists (splice T tc). rewrite !applyTextChanges_false.
  cbn [rev app fold_left]. split; [reflexivity|].
  now rewrite splice_inverse.
Qed.

Lemma reconstruct_length (T : jsstring) (edits : list TextChange) :
  forall from, 0 <= from ->
    ascendingDisjoint from edits (strlen T) ->
    strlen (reconstruct T from edits) = strlen T - from + netGrowth edits.
Proof.
  induction edits as [|e es IH]; intros from Hfrom Hasc; cbn [reconstruct netGrowth].
  - cbn in Hasc. rewrite strlen_substringFrom by lia. lia.
  - destruct Hasc as (Hs & Hl & Hrest).
    pose proof (ascendingDisjoint_bound _ _ _ Hrest) as Hend.
    unfold spanEnd in *.
    rewrite !strlen_app, strlen_substring, IH by (trivial; lia). lia.
Qed.

(** X3: For edits in ascending order inside the text, the length of the result
    is the length of the text plus, for each edit, the length of its
    replacement text minus the length of its span. *)
Theorem applyTextChanges_length
    (T : jsstring) (edits : list TextChange) (li : nat) :
  ascendingDisjoint 0 edits (strlen T) ->
  exists T',
    applyTextChanges createSourceFile T edits false li = (Returned T', li)
    /\ strlen T' = strlen T + netGrowth edits.
Proof.
  intros Hasc. exists (reconstruct T 0 edits). split.
  - rewrite applyTextChanges_false.
    now rewrite (fold_splice_ascending T edits 0).
  - rewrite reconstruct_length by (trivial; lia). lia.
Qed.

End SpliceProperties.

Lemma substring_0_clamp (s : jsstring) (n : Z) :
  substring s 0 n = firstn (Z.to_nat (clamp n (strlen s))) s.
Proof.
  pose proof (strlen_nonneg s) as Hlen.
  unfold substring, clamp.
  set (m := Z.min (Z.max n 0) (strlen s)).
  assert (Hm : 0 <= m <= strlen s) by (unfold m; lia).
  clearbody m. minmax. now rewrite Z.sub_0_r.
Qed.

Lemma substringFrom_clamp (s : jsstring) (n : Z) :
  substringFrom s n = skipn (Z.to_nat (clamp n (strlen s))) s.
Proof.
  pose proof (strlen_nonneg s) as Hlen.
  unfold substringFrom, substring, clamp.
  set (m := Z.min (Z.max n 0) (strlen s)).
  assert (Hm : 0 <= m <= strlen s) by (unfold m; lia).
  clearbody m. minmax.
  apply firstn_all2. rewrite length_skipn. unfold strlen. lia.
Qed.

Section MoreApplyTextChanges.

Variable createSourceFile : jsstring -> list Statement.

(** X4: An edit with any span at all is applied with its offsets brought
    into the text: what comes before the clamped start, the replacement
    text, what comes after the clamped end.  A span that starts at or
    after the end of the text appends, a span that ends at or before its
    start prepends. *)
Theorem applyTextChanges_any_span (T : jsstring) (tc : TextChange) (li : nat) :
  applyTextChanges createSourceFile T [tc] false li
  = (Returned (firstn (Z.to_nat (clamp (start (span tc)) (strlen T))) T
               ++ newText tc
               ++ skipn (Z.to_nat (clamp (spanEnd tc) (strlen T))) T), li)
  /\ (strlen T <= start (span tc) -> strlen T <= spanEnd tc ->
      applyTextChanges createSourceFile T [tc] false li
      = (Returned (T ++ newText tc), li))
  /\ (start (span tc) <= 0 -> spanEnd tc <= 0 ->
      applyTextChanges createSourceFile T [tc] false li
      = (Returned (newText tc ++ T), li)).
Proof.
  pose proof (strlen_nonneg T) as Hlen.
  assert (H : applyTextChanges createSourceFile T [tc] false li
              = (Returned
                   (firstn (Z.to_nat (clamp (start (span tc)) (strlen T))) T
                    ++ newText tc
                    ++ skipn (Z.to_nat (clamp (spanEnd tc) (strlen T))) T),
                 li)).
  { rewrite applyTextChanges_false. cbn [rev app fold_left]. unfold splice.
    now rewrite substring_0_clamp, substringFrom_clamp. }
  split; [exact H|]. split.
  - intros Hs He. rewrite H. unfold clamp.
    replace (Z.min (Z.max (start (span tc)) 0) (strlen T)) with (strlen T) by lia.
    replace (Z.min (Z.max (spanEnd tc) 0) (strlen T)) with (strlen T) by lia.
    unfold strlen. rewrite Nat2Z.id, firstn_all, skipn_all, app_nil_r.
    reflexivity.
  - intros Hs He. rewrite H. unfold clamp.
    replace (Z.min (Z.max (start (span tc)) 0) (strlen T)) with 0 by lia.
    replace (Z.min (Z.max (spanEnd tc) 0) (strlen T)) with 0 by lia.
    reflexivity.
Qed.

(** X5: Wherever the parser says the last import declaration ends, inside the
    text or not, the block of imports goes in between two parts that make
    up the whole text: nothing of it is lost or repeated. *)
Theorem imports_inserted_whole
    (T : jsstring) (edits : list TextChange) (fixupTypes : bool) (li : nat)
    (text : jsstring) (imports : ImportMap) (li' : nat)
    (lastImportStatement : Statement) :
  editLoop (applyTextChanges createSourceFile) fixupTypes T edits li
  = (Returned (text, imports), li') ->
  imports <> [] ->
  at_last (importStatementsOf createSourceFile (cleaned fixupTypes text))
  = Some lastImportStatement ->
  exists before after,
    applyTextChanges createSourceFile T edits fixupTypes li
    = (Returned (before ++ importBlock imports ++ after), li')
    /\ before ++ after = cleaned fixupTypes text.
Proof.
  intros Hloop Hne Hlast.
  exists (substring (cleaned fixupTypes text) 0 (end_ lastImportStatement)),
    (substringFrom (cleaned fixupTypes text) (end_ lastImportStatement)).
  split; [|apply substring_whole].
  rewrite applyTextChanges_loop. unfold bind. rewrite Hloop.
  rewrite consolidate_nonempty by trivial. now rewrite Hlast.
Qed.

End MoreApplyTextChanges.

(** ** The loop with [fixupTypes] on, for edits in ascending order *)

Lemma foldM_app {A B} (f : A -> B -> M A) (l1 l2 : list B) (a : A) (li : nat) :
  foldM f (l1 ++ l2) a li = bind (foldM f l1 a) (foldM f l2) li.
Proof.
  revert a li. induction l1 as [|b l1 IH]; intros a li; cbn [app foldM].
  - reflexivity.
  - unfold bind in *.
    destruct (f a b li) as [[a'|e] li']; [apply IH | reflexivity].
Qed.

Lemma ascendingDisjoint_rewrite from edits len :
  ascendingDisjoint from edits len ->
  ascendingDisjoint from (map rewriteChange edits) len.
Proof.
  revert from. induction edits as [|e es IH]; intros from; cbn; [trivial|].
  intros (H1 & H2 & H3). repeat split; trivial. now apply IH.
Qed.

Lemma recordPairs_app imports l1 l2 :
  recordPairs imports (l1 ++ l2) = recordPairs (recordPairs imports l1) l2.
Proof. apply fold_left_app. Qed.

Lemma substring_of_prefix (T R : jsstring) (a b : Z) :
  0 <= a <= b -> b <= strlen T ->
  substring (firstn (Z.to_nat b) T ++ R) a b = substring T a b.
Proof.
  intros Ha Hb.
  assert (Hlen : List.length (firstn (Z.to_nat b) T) = Z.to_nat b)
    by (rewrite length_firstn; unfold strlen in Hb; lia).
  rewrite !substring_slice
    by (trivial; rewrite strlen_app; unfold strlen at 1; rewrite Hlen;
        pose proof (strlen_nonneg R); lia).
  rewrite skipn_app, firstn_app, length_skipn, Hlen.
  replace (Z.to_nat (b - a) - (Z.to_nat b - Z.to_nat a))%nat with 0%nat by lia.
  replace (Z.to_nat a - Z.to_nat b)%nat with 0%nat by lia.
  cbn [skipn firstn]. rewrite app_nil_r.
  rewrite skipn_firstn_comm. rewrite firstn_firstn. f_equal. lia.
Qed.

Section AscendingRewrite.

Variable createSourceFile : jsstring -> list Statement.

Lemma editLoop_ascending_gen (T : jsstring) (edits : list TextChange) :
  forall from, 0 <= from ->
    ascendingDisjoint from edits (strlen T) ->
    (forall e, In e edits ->
               noDynamicReference (substring T (start (span e)) (spanEnd e))) ->
    forall li,
      foldM (applyOne (applyTextChanges createSourceFile) true) (rev edits)
        (T, []) li
      = (Returned (fold_left splice (rev (map rewriteChange edits)) T,
                   recordPairs [] (flat_map pairsOf (rev edits))),
         leftAt edits li).
Proof.
  induction edits as [|e es IH]; intros from Hfrom Hasc Hold li.
  - reflexivity.
  - destruct Hasc as (Hs & Hl & Hrest).
    pose proof (ascendingDisjoint_bound _ _ _ Hrest) as Hend.
    cbn [rev map]. rewrite foldM_app. unfold bind.
    rewrite (IH (spanEnd e)); trivial;
      [|unfold spanEnd; lia | intros e' He'; apply Hold; now right].
    cbn [foldM]. unfold bind.
    rewrite (fold_splice_ascending T (map rewriteChange es) (spanEnd e))
      by (try apply ascendingDisjoint_rewrite; trivial; unfold spanEnd; lia).
    set (R := reconstruct T (spanEnd e) (map rewriteChange es)).
    assert (Hno : noDynamicReference
                    (substring (firstn (Z.to_nat (spanEnd e)) T ++ R)
                       (start (span e)) (spanEnd e))).
    { rewrite substring_of_prefix by (unfold spanEnd in *; lia).
      apply Hold. now left. }
    pose proof (exec_noDynamicReference _ (leftAt es li) Hno) as Hexec.
    destruct (exec dynamicTypeRegex _ (leftAt es li)) as [o li1] eqn:E.
    cbn [fst] in Hexec. subst o.
    rewrite (applyOne_rewrite _ _ _ _ _ _ E).
    cbn [ret leftAt]. unfold ret.
    rewrite fold_left_app, flat_map_app, recordPairs_app, recordAll_pairs.
    cbn [fold_left flat_map]. rewrite app_nil_r.
    rewrite (fold_splice_ascending T (map rewriteChange es) (spanEnd e))
      by (try apply ascendingDisjoint_rewrite; trivial; unfold spanEnd; lia).
    reflexivity.
Qed.

(** X6: For edits in ascending order inside the text whose old texts hold no
    dynamic reference, the loop gives the reconstruction by hand with the
    rewritten replacement texts and records the pairs of the edits from the
    last to the first; what it gives does not depend on the [lastIndex] it
    starts from, and it leaves [lastIndex] at 0. *)
Theorem editLoop_ascending_rewrite
    (T : jsstring) (edits : list TextChange) (li : nat) :
  ascendingDisjoint 0 edits (strlen T) ->
  (forall e, In e edits ->
             noDynamicReference (substring T (start (span e)) (spanEnd e))) ->
  edits <> [] ->
  editLoop (applyTextChanges createSourceFile) true T edits li
  = (Returned (reconstruct T 0 (map rewriteChange edits),
               recordPairs [] (flat_map pairsOf (rev edits))), 0%nat)
  /\ applyTextChanges createSourceFile T edits true li
     = applyTextChanges createSourceFile T edits true 0%nat.
Proof.
  intros Hasc Hold Hne.
  assert (H : forall li0,
             editLoop (applyTextChanges createSourceFile) true T edits li0
             = (Returned (reconstruct T 0 (map rewriteChange edits),
                          recordPairs [] (flat_map pairsOf (rev edits))),
                0%nat)).
  { intros li0. unfold editLoop.
    rewrite (editLoop_ascending_gen T edits 0) by (trivial; lia).
    rewrite (fold_splice_ascending T (map rewriteChange edits) 0)
      by (try apply ascendingDisjoint_rewrite; trivial; lia).
    destruct edits; [congruence | reflexivity]. }
  split; [apply H|].
  rewrite !applyTextChanges_loop. unfold bind. now rewrite !H.
Qed.

End AscendingRewrite.

(** ** What the map of imports holds *)

Lemma set_has_In (s : StringSet) (x : jsstring) : set_has s x = true <-> In x s.
Proof.
  induction s as [|y s IH]; cbn [set_has In].
  - split; [discriminate | tauto].
  - rewrite orb_true_iff, str_eqb_eq, IH. tauto.
Qed.

Lemma firstSeen_In (l : list jsstring) (y : jsstring) :
  In y (firstSeen l) <-> In y l.
Proof.
  induction l as [|x l IH]; cbn [firstSeen In]; [tauto|].
  rewrite filter_In, IH, negb_true_iff. split.
  - tauto.
  - intros [->|Hy]; [now left|].
    destruct (list_eq_dec N.eq_dec x y) as [->|Hne]; [now left|].
    right. split; [exact Hy | now apply str_eqb_neq].
Qed.

Lemma firstSeen_NoDup (l : list jsstring) : NoDup (firstSeen l).
Proof.
  induction l as [|x l IH]; cbn [firstSeen]; constructor.
  - rewrite filter_In, negb_true_iff, str_eqb_refl. intros [_ H]. discriminate.
  - now apply NoDup_filter.
Qed.

Lemma In_map_get (imports : ImportMap) (k : jsstring) (v : StringSet) :
  NoDup (map fst imports) -> In (k, v) imports -> map_get imports k = Some v.
Proof.
  induction imports as [|[k' v'] imports IH]; cbn [map fst In map_get];
    [tauto|].
  intros Hnd [Heq|Hin].
  - inversion Heq; subst. now rewrite str_eqb_refl.
  - inversion Hnd as [|? ? Hnot Hnd']; subst.
    rewrite str_eqb_neq; [now apply IH|].
    intros ->. apply Hnot. apply (in_map fst) in Hin. exact Hin.
Qed.

Lemma typesFor_In (module type : jsstring) (pairs : list (jsstring * jsstring)) :
  In type (typesFor module pairs) <-> In (module, type) pairs.
Proof.
  unfold typesFor. rewrite in_map_iff. split.
  - intros ([k x] & <- & Hin). apply filter_In in Hin as [Hin Hk].
    cbn in Hk. apply str_eqb_eq in Hk. now subst.
  - intros Hin. exists (module, type). split; [reflexivity|].
    apply filter_In. split; [exact Hin | apply str_eqb_refl].
Qed.

Lemma recordPairs_entry (pairs : list (jsstring * jsstring))
      (module : jsstring) (types : StringSet) :
  In (module, types) (recordPairs [] pairs) ->
  types <> [] /\ NoDup types
  /\ forall type, In type types <-> In (module, type) pairs.
Proof.
  intros Hin.
  apply In_map_get in Hin;
    [|rewrite recordPairs_modules; apply firstSeen_NoDup].
  rewrite recordPairs_types in Hin.
  destruct (typesFor module pairs) as [|t ts] eqn:E; [discriminate|].
  assert (Ht : types = firstSeen (typesFor module pairs))
    by (rewrite E; congruence).
  clear Hin. subst types. split; [|split].
  - rewrite E. discriminate.
  - apply firstSeen_NoDup.
  - intros type. rewrite firstSeen_In. apply typesFor_In.
Qed.

Lemma pairsOf_dynamicReference (tc : TextChange) (p : jsstring * jsstring) :
  In p (pairsOf tc) ->
  exists i, dynamicReferenceAt (newText tc) i (fst p) (snd p).
Proof.
  unfold pairsOf. rewrite in_map_iff. intros (m & <- & Hin).
  pose proof (execAll_matchIn dynamicTypeRegex (newText tc)
                (S (List.length (newText tc))) 0) as HF.
  rewrite Forall_forall in HF.
  exists (index m). now apply matchIn_dynamicReference, HF.
Qed.

Section ImportsInvariant.

Variable createSourceFile : jsstring -> list Statement.

Lemma applyOne_imports fixupTypes text imports tc li text' imports' li' :
  applyOne (applyTextChanges createSourceFile) fixupTypes (text, imports) tc li
  = (Returned (text', imports'), li') ->
  imports' = imports \/ imports' = recordPairs imports (pairsOf tc).
Proof.
  destruct fixupTypes.
  - destruct (exec dynamicTypeRegex
                (substring text (start (span tc)) (spanEnd tc)) li)
      as [[m|] li1] eqn:E.
    + rewrite (applyOne_suppressed _ _ _ _ _ _ _ E).
      intros H. inversion H. now left.
    + rewrite (applyOne_rewrite _ _ _ _ _ _ E).
      intros H. inversion H. right. apply recordAll_pairs.
  - rewrite applyOne_false. intros H. inversion H. now left.
Qed.

Lemma foldM_imports fixupTypes (l : list TextChange) :
  forall text pairs0 li text' imports' li',
    foldM (applyOne (applyTextChanges createSourceFile) fixupTypes) l
      (text, recordPairs [] pairs0) li
    = (Returned (text', imports'), li') ->
    exists pairs,
      imports' = recordPairs [] (pairs0 ++ pairs)
      /\ forall p, In p pairs -> exists e, In e l /\ In p (pairsOf e).
Proof.
  induction l as [|tc l IH]; intros text pairs0 li text' imports' li';
    cbn [foldM].
  - intros H. inversion H. exists []. rewrite app_nil_r.
    split; [reflexivity | intros p []].
  - unfold bind.
    destruct (applyOne_returns createSourceFile fixupTypes
                (text, recordPairs [] pairs0) tc li)
      as ([text1 imports1] & li1 & E).
    rewrite E. intros H.
    destruct (applyOne_imports _ _ _ _ _ _ _ _ E) as [->| ->].
    + apply IH in H as (pairs & -> & Hp).
      exists pairs. split; [reflexivity|].
      intros p Hin. destruct (Hp p Hin) as (e & He & Hpe).
      exists e. split; [now right | exact Hpe].
    + rewrite <- recordPairs_app in H.
      apply IH in H as (pairs & -> & Hp).
      exists (pairsOf tc ++ pairs). split; [now rewrite app_assoc|].
      intros p Hin. apply in_app_or in Hin as [Hin|Hin].
      * exists tc. split; [now left | exact Hin].
      * destruct (Hp p Hin) as (e & He & Hpe).
        exists e. split; [now right | exact Hpe].
Qed.

Lemma editLoop_imports fixupTypes T edits li text imports li' :
  editLoop (applyTextChanges createSourceFile) fixupTypes T edits li
  = (Returned (text, imports), li') ->
  exists pairs,
    imports = recordPairs [] pairs
    /\ forall p, In p pairs -> exists e, In e edits /\ In p (pairsOf e).
Proof.
  unfold editLoop. intros H.
  apply (foldM_imports fixupTypes (rev edits) T []) in H
    as (pairs & -> & Hp).
  exists pairs. split; [reflexivity|].
  intros p Hin. destruct (Hp p Hin) as (e & He & Hpe).
  exists e. split; [now apply in_rev | exact Hpe].
Qed.

(** X7: Whatever the edits, the map the loop ends with has no module twice,
    and no module with an empty set of names or with a name twice: no
    import line is repeated, none is empty, none names a type twice. *)
Theorem imports_without_repetition
    (T : jsstring) (edits : list TextChange) (fixupTypes : bool) (li : nat)
    (text : jsstring) (imports : ImportMap) (li' : nat) :
  editLoop (applyTextChanges createSourceFile) fixupTypes T edits li
  = (Returned (text, imports), li') ->
  NoDup (map fst imports)
  /\ forall module types,
      In (module, types) imports -> types <> [] /\ NoDup types.
Proof.
  intros H. apply editLoop_imports in H as (pairs & -> & _). split.
  - rewrite recordPairs_modules. apply firstSeen_NoDup.
  - intros module types Hin.
    apply recordPairs_entry in Hin as (H1 & H2 & _). now split.
Qed.

(** X8: Whatever the edits, every name the map asks from a module stands in
    the replacement text of one of the edits as a dynamic reference to
    that name of that module. *)
Theorem imports_come_from_references
    (T : jsstring) (edits : list TextChange) (fixupTypes : bool) (li : nat)
    (text : jsstring) (imports : ImportMap) (li' : nat)
    (module : jsstring) (types : StringSet) (type : jsstring) :
  editLoop (applyTextChanges createSourceFile) fixupTypes T edits li
  = (Returned (text, imports), li') ->
  In (module, types) imports ->
  In type types ->
  exists e i,
    In e edits /\ dynamicReferenceAt (newText e) i module type.
Proof.
  intros H Hin Ht. apply editLoop_imports in H as (pairs & -> & Hp).
  apply recordPairs_entry in Hin as (_ & _ & Htypes).
  apply Htypes in Ht. destruct (Hp _ Ht) as (e & He & Hpe).
  apply pairsOf_dynamicReference in Hpe as (i & Hat).
  exists e, i. now split.
Qed.

End ImportsInvariant.

(** ** The test of the old text *)

(** X9: [dynamicTypeRegex.test(s)] looks at [s] from [lastIndex] on only.  When
    it answers true, a dynamic reference stands at or after [lastIndex],
    the leftmost such, and [lastIndex] becomes its end; when it answers
    false, none stands at or after [lastIndex], and [lastIndex] becomes 0.
    It never throws. *)
Theorem test_looks_from_lastIndex (s : jsstring) (li : nat) :
  match test dynamicTypeRegex s li with
  | (Returned true, li') =>
      exists i module type,
        dynamicReferenceAt s i module type
        /\ (li <= i)%nat
        /\ li' = (i + List.length (dynamicReference module type))%nat
        /\ forall j module' type',
            (li <= j < i)%nat -> ~ dynamicReferenceAt s j module' type'
  | (Returned false, li') =>
      li' = 0%nat
      /\ forall j module type,
          (li <= j)%nat -> ~ dynamicReferenceAt s j module type
  | (Thrown _, _) => False
  end.
Proof.
  unfold test.
  destruct (exec dynamicTypeRegex s li) as [[m|] li'] eqn:E.
  - pose proof (exec_found _ _ _ _ _ E) as Hfound.
    pose proof (exec_Some _ _ _ _ _ E) as (Hli & Hlen & -> & _ & _).
    apply matches_dynamicReferenceAt in Hfound
      as (module & type & _ & Hn & Hat).
    exists (index m), module, type.
    split; [exact Hat|]. split; [exact Hli|]. split; [now rewrite Hn|].
    intros j module' type' Hj Hat'.
    pose proof (dynamicReferenceAt_inside _ _ _ _ Hat') as Hin.
    apply dynamicReferenceAt_matches in Hat'.
    destruct (exec_leftmost dynamicTypeRegex s li j _ ltac:(lia) Hat')
      as (m' & li1 & E' & Hle).
    rewrite E in E'. inversion E'; subst. lia.
  - split; [apply (exec_None _ _ _ _ E)|].
    intros j module type Hj Hat.
    pose proof (dynamicReferenceAt_inside _ _ _ _ Hat) as Hin.
    apply dynamicReferenceAt_matches in Hat.
    destruct (exec_leftmost dynamicTypeRegex s li j _ ltac:(lia) Hat)
      as (m' & li1 & E' & _).
    rewrite E in E'. discriminate.
Qed.

(** ** The fix discovery loop, in full *)

Lemma nodeModulesRegex_match prev s :
  matchAtoms nodeModulesRegex prev s <> None
  <-> exists s1 s2 rest,
      isSeparator s1 = true /\ isSeparator s2 = true
      /\ s = [s1] ++ js "node_modules" ++ [s2] ++ rest.
Proof.
  change nodeModulesRegex
    with (Class isSeparator
            :: map Chr (js "node_modules") ++ [Class isSeparator]).
  split.
  - cbn [matchAtoms]. destruct s as [|s1 s]; [congruence|].
    destruct (isSeparator s1) eqn:H1; [|congruence].
    destruct (matchAtoms _ (Some s1) s) as [[caps n]|] eqn:E; [|cbn; congruence].
    intros _. apply matchAtoms_lit_sound in E as (s' & n' & -> & E & _).
    cbn [matchAtoms] in E. destruct s' as [|s2 rest]; [discriminate|].
    destruct (isSeparator s2) eqn:H2; [|discriminate].
    exists s1, s2, rest. auto.
  - intros (s1 & s2 & rest & H1 & H2 & ->).
    cbn [app matchAtoms]. rewrite H1, matchAtoms_lit.
    cbn [app matchAtoms]. rewrite H2. cbn. congruence.
Qed.

Lemma testOnce_inNodeModules (name : jsstring) :
  testOnce nodeModulesRegex name = true <-> inNodeModules name.
Proof.
  unfold testOnce. split.
  - destruct (search nodeModulesRegex None name 0) as [m|] eqn:E;
      [|discriminate].
    intros _. apply search_found in E.
    assert (Hm : matchAtoms nodeModulesRegex
                   (charBeforeIn None name (index m - 0))
                   (skipn (index m - 0) name) <> None) by congruence.
    apply nodeModulesRegex_match in Hm as (s1 & s2 & rest & H1 & H2 & Hs).
    exists (firstn (index m - 0) name), s1, s2, rest.
    repeat split; trivial. now rewrite <- Hs, firstn_skipn.
  - intros (before & s1 & s2 & after & H1 & H2 & ->).
    set (name := before ++ [s1] ++ js "node_modules" ++ [s2] ++ after).
    destruct (matchAtoms nodeModulesRegex
                (charBeforeIn None name (List.length before))
                (skipn (List.length before) name)) as [res|] eqn:E.
    + destruct (search_leftmost nodeModulesRegex name None 0
                  (List.length before) res) as (m & -> & _); trivial.
      unfold name. rewrite length_app. lia.
    + exfalso. revert E. apply nodeModulesRegex_match.
      exists s1, s2, after. repeat split; trivial.
      unfold name. now rewrite skipn_app_exact.
Qed.

Section FixDiscoveryInFull.

Variable relative : jsstring -> jsstring -> jsstring.
Variable getCombinedCodeFix : jsstring -> list FileTextChanges.

Lemma genLoop_program (cwd : jsstring) (l1 l2 : list SourceFile) files l :
  genLoop relative getCombinedCodeFix
    {| getSourceFiles := l1; getCurrentDirectory := cwd |} files l
  = genLoop relative getCombinedCodeFix
      {| getSourceFiles := l2; getCurrentDirectory := cwd |} files l.
Proof.
  induction l as [|f l IH]; cbn [genLoop]; [reflexivity|].
  cbn [getCurrentDirectory]. now rewrite !IH.
Qed.

Lemma reaches_eligible program files file :
  reaches relative program files file = true
  <-> eligible relative program files file.
Proof.
  unfold reaches, eligible.
  rewrite !andb_true_iff, !negb_true_iff.
  destruct files; tauto.
Qed.

Lemma genLoop_skip program files file rest :
  reaches relative program files file = false ->
  genLoop relative getCombinedCodeFix program files (file :: rest)
  = genLoop relative getCombinedCodeFix program files rest.
Proof.
  unfold reaches, relativePathOf. intros H. cbn [genLoop].
  destruct (testOnce nodeModulesRegex (fileName file)); [reflexivity|].
  destruct (isDeclarationFile file); [reflexivity|].
  cbn [negb andb] in H. destruct files as [set|]; [|discriminate].
  now rewrite H.
Qed.

Lemma genLoop_filter program files sourceFiles :
  genLoop relative getCombinedCodeFix program files sourceFiles
  = genLoop relative getCombinedCodeFix program files
      (filter (reaches relative program files) sourceFiles).
Proof.
  induction sourceFiles as [|f l IH]; [reflexivity|]. cbn [filter].
  destruct (reaches relative program files f) eqn:E.
  - apply reaches_eligible in E.
    rewrite !(genLoop_eligible _ _ _ _ _ _ E), IH. reflexivity.
  - now rewrite genLoop_skip.
Qed.

Lemma genLoop_all_fine program files (asked : list SourceFile) :
  Forall (fun f => reaches relative program files f = true) asked ->
  forallb (fun f => negb (tooMany relative getCombinedCodeFix program f)) asked
  = true ->
  genLoop relative getCombinedCodeFix program files asked
  = (flat_map (fixOf relative getCombinedCodeFix program) asked, None).
Proof.
  induction 1 as [|f l Hf Hl IH]; cbn [forallb flat_map]; [reflexivity|].
  rewrite andb_true_iff, negb_true_iff. intros [Hone Hrest].
  apply reaches_eligible in Hf.
  rewrite (genLoop_eligible _ _ _ _ _ _ Hf), (IH Hrest).
  unfold tooMany in Hone. unfold fixOf.
  destruct (getCombinedCodeFix _) as [|c [|c' more]];
    [reflexivity | reflexivity | discriminate].
Qed.

(** X10: The loop in full.  Of the source files, those outside [node_modules],
    not declaration files and in the set of files when there is one are
    asked for a fix, in order.  When none of their fixes has more than one
    change, the loop yields one value for each fix with one change and
    ends; otherwise it yields so up to the first file whose fix has more
    and throws there. *)
Theorem genCodeFixesFromProject_in_full
    (program : Program) (files : option (list jsstring)) :
  let asked := filter (reaches relative program files)
                      (getSourceFiles program) in
  let fine f := negb (tooMany relative getCombinedCodeFix program f) in
  (forallb fine asked = true ->
   genCodeFixesFromProject relative (Some program) getCombinedCodeFix files
   = (flat_map (fixOf relative getCombinedCodeFix program) asked, None))
  /\ (forall before file after,
        asked = before ++ file :: after ->
        forallb fine before = true ->
        fine file = false ->
        genCodeFixesFromProject relative (Some program) getCombinedCodeFix
          files
        = (flat_map (fixOf relative getCombinedCodeFix program) before,
           Some (AssertionError
                   (Some (js "Multiple fixes found for "
                          ++ relativePathOf relative program file))))).
Proof.
  intros asked fine.
  assert (Hasked : Forall (fun f => reaches relative program files f = true)
                          asked).
  { apply Forall_forall. intros f Hf. now apply filter_In in Hf. }
  unfold genCodeFixesFromProject. rewrite genLoop_filter. fold asked.
  split.
  - now apply genLoop_all_fine.
  - intros before file after Heq Hbefore Hfile. rewrite Heq in *.
    apply Forall_app in Hasked as [Hb Hf].
    rewrite genLoop_app, (genLoop_all_fine _ _ _ Hb Hbefore).
    inversion Hf as [|? ? Hreach _]; subst.
    apply reaches_eligible in Hreach.
    rewrite (genLoop_eligible _ _ _ _ _ _ Hreach).
    unfold fine, tooMany in Hfile. apply negb_false_iff in Hfile.
    destruct (getCombinedCodeFix _) as [|c [|c' more]];
      [discriminate | discriminate |].
    now rewrite app_nil_r.
Qed.

(** X11: A file under [node_modules], a declaration file and a file outside the
    set of files, when there is one, do not count: the run is the one
    without the file, whatever the language service would say of it. *)
Theorem genCodeFixesFromProject_leaves_out
    (cwd : jsstring) (files : option (list jsstring))
    (before after : list SourceFile) (file : SourceFile) :
  let program sourceFiles :=
    {| getSourceFiles := sourceFiles; getCurrentDirectory := cwd |} in
  inNodeModules (fileName file)
  \/ isDeclarationFile file = true
  \/ (exists set, files = Some set
                  /\ ~ In (relative cwd (fileName file)) set) ->
  genCodeFixesFromProject relative
    (Some (program (before ++ file :: after))) getCombinedCodeFix files
  = genCodeFixesFromProject relative
      (Some (program (before ++ after))) getCombinedCodeFix files.
Proof.
  intros program H. subst program. unfold genCodeFixesFromProject.
  cbn beta iota. cbn [getSourceFiles].
  rewrite (genLoop_program cwd (before ++ file :: after) []).
  rewrite (genLoop_program cwd (before ++ after) []).
  rewrite !genLoop_app.
  rewrite genLoop_skip; [reflexivity|].
  unfold reaches, relativePathOf. cbn [getCurrentDirectory].
  destruct H as [Hnode | [Hdecl | (set & -> & Hset)]].
  - apply testOnce_inNodeModules in Hnode. now rewrite Hnode.
  - rewrite Hdecl. now rewrite andb_false_r.
  - destruct (set_has set (relative cwd (fileName file))) eqn:E.
    + apply set_has_In in E. contradiction.
    + apply andb_false_r.
Qed.

End FixDiscoveryInFull.

(** ** The validation of the listed files *)

Lemma newSet_firstSeen (l : list jsstring) : newSet l = firstSeen l.
Proof. apply firstSeen_fold. Qed.

Lemma accessible_files (access : jsstring -> bool) (files : list jsstring) :
  flat_map (fun result : bool * jsstring =>
              if fst result then [snd result] else [])
           (map (fun file => (access file, file)) files)
  = filter access files.
Proof.
  induction files as [|f l IH]; cbn [map flat_map filter fst snd];
    [reflexivity|].
  rewrite IH. now destruct (access f).
Qed.

Lemma fold_set_add_if (p : jsstring -> bool) (l : list jsstring) :
  forall acc,
    fold_left (fun acc x => if p x then set_add acc x else acc) l acc
    = fold_left set_add (filter p l) acc.
Proof.
  induction l as [|x l IH]; intros acc; cbn [fold_left filter]; [reflexivity|].
  rewrite IH. now destruct (p x).
Qed.

Lemma firstSeen_nil (l : list jsstring) : firstSeen l = [] <-> l = [].
Proof.
  split; [|now intros ->].
  destruct l as [|x l]; [reflexivity|]. intros H.
  assert (Hx : In x (firstSeen (x :: l))) by (apply firstSeen_In; now left).
  rewrite H in Hx. destruct Hx.
Qed.

Lemma filter_nil {A} (p : A -> bool) (l : list A) :
  filter p l = [] <-> forall x, In x l -> p x = false.
Proof.
  induction l as [|x l IH]; cbn [filter]; [now split|].
  destruct (p x) eqn:E; split.
  - discriminate.
  - intros H. specialize (H x (or_introl eq_refl)). congruence.
  - intros H y [<-|Hy]; [exact E | now apply IH].
  - intros H. apply IH. intros y Hy. apply H. now right.
Qed.

Section ValidateFilesProperties.

Variable access : jsstring -> bool.

Lemma validateFiles_eq (files : list jsstring) :
  validateFiles access files
  = match firstSeen (filter access files) with
    | [] => Rejected (PlainError (js "All provided files are invalid"))
    | valid =>
        Fulfilled (valid,
                   firstSeen (filter (fun f => negb (access f)) files))
    end.
Proof.
  unfold validateFiles.
  rewrite accessible_files, newSet_firstSeen.
  destruct (firstSeen (filter access files)) as [|v valid] eqn:E;
    [reflexivity|].
  cbn [List.length Nat.eqb]. rewrite fold_set_add_if, firstSeen_fold.
  do 3 f_equal. apply filter_ext_in. intros f Hf. f_equal.
  destruct (access f) eqn:Ha.
  - apply set_has_In. rewrite <- E. apply firstSeen_In, filter_In. now split.
  - destruct (set_has (v :: valid) f) eqn:Hs; [|reflexivity].
    apply set_has_In in Hs. rewrite <- E in Hs.
    apply firstSeen_In, filter_In in Hs as [_ Hs]. congruence.
Qed.

(** X12: [validateFiles] rejects, with the message that all the files are
    invalid, when no listed file can be accessed, and only then: so it
    does for an empty list. *)
Theorem validateFiles_rejects (files : list jsstring) :
  (forall f, In f files -> access f = false)
  <-> validateFiles access files
      = Rejected (PlainError (js "All provided files are invalid")).
Proof.
  rewrite validateFiles_eq. split.
  - intros Hall.
    destruct (firstSeen (filter access files)) as [|v valid] eqn:E;
      [reflexivity|].
    assert (Hv : In v (firstSeen (filter access files)))
      by (rewrite E; now left).
    apply firstSeen_In, filter_In in Hv as [Hin Ha].
    rewrite (Hall v Hin) in Ha. discriminate.
  - destruct (firstSeen (filter access files)) as [|v valid] eqn:E;
      [|discriminate].
    intros _ f Hin. destruct (access f) eqn:Ha; [|reflexivity].
    assert (Hf : In f (firstSeen (filter access files)))
      by (apply firstSeen_In, filter_In; now split).
    rewrite E in Hf. destruct Hf.
Qed.

(** X13: When [validateFiles] returns, the valid files are the listed files
    that can be accessed and the invalid files are the listed files that
    cannot; no file is twice in either set, and there is a valid file. *)
Theorem validateFiles_partition
    (files : list jsstring) (validFiles invalidFiles : StringSet) :
  validateFiles access files = Fulfilled (validFiles, invalidFiles) ->
  (forall f, In f validFiles <-> In f files /\ access f = true)
  /\ (forall f, In f invalidFiles <-> In f files /\ access f = false)
  /\ NoDup validFiles /\ NoDup invalidFiles
  /\ validFiles <> [].
Proof.
  rewrite validateFiles_eq.
  destruct (firstSeen (filter access files)) as [|v valid] eqn:E;
    [discriminate|].
  intros H. inversion H; subst. rewrite <- E.
  split; [|split; [|split; [|split]]].
  - intros f. now rewrite firstSeen_In, filter_In.
  - intros f. now rewrite firstSeen_In, filter_In, negb_true_iff.
  - apply firstSeen_NoDup.
  - apply firstSeen_NoDup.
  - rewrite E. discriminate.
Qed.

End ValidateFilesProperties.

(** ** The run over a project *)

Lemma genLoop_yields relative getCombinedCodeFix program files sourceFiles
      (codeFix : CodeFix) :
  In codeFix
     (fst (genLoop relative getCombinedCodeFix program files sourceFiles)) ->
  exists f,
    In f sourceFiles
    /\ reaches relative program files f = true
    /\ In codeFix (fixOf relative getCombinedCodeFix program f).
Proof.
  induction sourceFiles as [|f l IH]; [intros []|].
  destruct (reaches relative program files f) eqn:E.
  - pose proof (proj1 (reaches_eligible relative program files f) E) as He.
    rewrite (genLoop_eligible relative getCombinedCodeFix _ _ _ l He).
    pose proof (eq_refl (fixOf relative getCombinedCodeFix program f)) as Hfix.
    unfold fixOf at 2 in Hfix.
    destruct (getCombinedCodeFix (relativePathOf relative program f))
      as [|c [|c' more]].
    + intros H. apply IH in H as (g & Hg & Hr & Hf).
      exists g. split; [now right | now split].
    + destruct (genLoop relative getCombinedCodeFix program files l)
        as [yielded thrown]. cbn [fst In].
      intros [<-|H].
      * exists f. split; [now left|]. split; [exact E|].
        rewrite Hfix. now left.
      * apply IH in H as (g & Hg & Hr & Hf).
        exists g. split; [now right | now split].
    + intros [].
  - rewrite genLoop_skip by exact E.
    intros H. apply IH in H as (g & Hg & Hr & Hf).
    exists g. split; [now right | now split].
Qed.

Lemma writesOf_cons (promise : settled (option FileWrite)) promises :
  writesOf (promise :: promises)
  = match promise with
    | Fulfilled (Some w) => [w]
    | _ => []
    end ++ writesOf promises.
Proof. reflexivity. Qed.

Section CodefixProjectProperties.

Variable access : jsstring -> bool.
Variable relative : jsstring -> jsstring -> jsstring.
Variable createLanguageService : jsstring -> settled LanguageService.
Variable getSourceFile : Program -> jsstring -> option SourceFile.
Variable createSourceFile : jsstring -> list Statement.

Lemma tasks_dry program (fixes : list CodeFix) : forall li,
  writesOf (fst (tasks getSourceFile createSourceFile program false fixes li))
  = [].
Proof.
  induction fixes as [|codeFix rest IH]; intros li; cbn [tasks];
    [reflexivity|].
  destruct (task _ _ program false codeFix li) as [promise li1] eqn:Et.
  specialize (IH li1).
  destruct (tasks _ _ program false rest li1) as [promises li2].
  cbn [fst] in *. rewrite writesOf_cons, IH.
  unfold task in Et.
  destruct (getSourceFile program (fixFileName codeFix)) as [sf|].
  - destruct (applyTextChanges _ _ _ _ _) as [[t|e] li'];
      inversion Et; reflexivity.
  - inversion Et. reflexivity.
Qed.

(** X14: Without [--write] no call of [fs.writeFile] is made, whatever the
    project, the files and the fixes. *)
Theorem dry_run_writes_nothing
    (tsconfig : jsstring) (files : option (list jsstring)) (li : nat) :
  writes (fst (codefixProject access relative createLanguageService
                 getSourceFile createSourceFile tsconfig files false li))
  = []
  /\ writes (fst (execute access relative createLanguageService
                    getSourceFile createSourceFile tsconfig files None li))
     = [].
Proof.
  assert (H : writes (fst (codefixProject access relative
                             createLanguageService getSourceFile
                             createSourceFile tsconfig files false li)) = []).
  { unfold codefixProject.
    destruct (match files with Some _ => _ | None => _ end) as [allowed|t];
      [|reflexivity].
    destruct (createLanguageService tsconfig) as [service|t]; [|reflexivity].
    destruct (getProgram service) as [program|]; [|reflexivity].
    destruct (genCodeFixesFromProject _ _ _ _) as [yielded thrown].
    pose proof (tasks_dry program yielded li) as Hdry.
    destruct (tasks _ _ program false yielded li) as [promises li'].
    exact Hdry. }
  split; exact H.
Qed.

(** X15: With a list of files none of which can be accessed, and so with an
    empty list, the run is rejected before the project is looked at:
    nothing is written and [lastIndex] is as it was. *)
Theorem all_files_invalid
    (tsconfig : jsstring) (listed : list jsstring) (write : bool) (li : nat) :
  (forall f, In f listed -> access f = false) ->
  codefixProject access relative createLanguageService getSourceFile
    createSourceFile tsconfig (Some listed) write li
  = ({| writes := [];
        rejection := Some (PlainError (js "All provided files are invalid")) |},
     li).
Proof.
  intros Hall. unfold codefixProject. rewrite validateFiles_eq.
  now rewrite (proj2 (filter_nil access listed) Hall).
Qed.

Lemma tasks_writes program write (fixes : list CodeFix) : forall li w,
  In w (writesOf (fst (tasks getSourceFile createSourceFile program write
                         fixes li))) ->
  write = true
  /\ exists codeFix sourceFile li0 li1,
      In codeFix fixes
      /\ getSourceFile program (fixFileName codeFix) = Some sourceFile
      /\ applyTextChanges createSourceFile (text sourceFile)
           (fixTextChanges codeFix) true li0
         = (Returned (snd w), li1)
      /\ fst w = fixFileName codeFix.
Proof.
  induction fixes as [|codeFix rest IH]; intros li w; cbn [tasks];
    [intros []|].
  destruct (task _ _ program write codeFix li) as [promise li1] eqn:Et.
  specialize (IH li1 w).
  destruct (tasks _ _ program write rest li1) as [promises li2].
  cbn [fst] in *. rewrite writesOf_cons.
  intros Hin. apply in_app_or in Hin as [Hin|Hin].
  - unfold task in Et.
    destruct (getSourceFile program (fixFileName codeFix)) as [sf|] eqn:Es.
    + destruct (applyTextChanges _ (text sf) _ _ li) as [[t|e] li'] eqn:Ea;
        inversion Et; subst; [|destruct Hin].
      destruct write; [|destruct Hin].
      destruct Hin as [<-|[]]. split; [reflexivity|].
      exists codeFix, sf, li, li1. repeat split; trivial. now left.
    + inversion Et; subst. destruct Hin.
  - destruct (IH Hin) as (Hw & cf & sf & l0 & l1 & Hcf & Hs & Ha & Hn).
    split; [exact Hw|]. exists cf, sf, l0, l1. repeat split; trivial.
    now right.
Qed.

(** X16: Every call of [fs.writeFile] is for a source file of the program that
    is outside [node_modules], is not a declaration file and has a fix with
    one change; with a list of files, it is for one of the listed files
    that can be accessed.  What is written is what [applyTextChanges]
    returns for the text of the file and the changes of the fix. *)
Theorem writes_only_where_asked
    (tsconfig : jsstring) (files : option (list jsstring)) (write : bool)
    (li : nat) (name updatedText : jsstring) :
  In (name, updatedText)
     (writes (fst (codefixProject access relative createLanguageService
                     getSourceFile createSourceFile tsconfig files write li))) ->
  write = true
  /\ exists service program file change sourceFile li0 li1,
      createLanguageService tsconfig = Fulfilled service
      /\ getProgram service = Some program
      /\ In file (getSourceFiles program)
      /\ name = relative (getCurrentDirectory program) (fileName file)
      /\ ~ inNodeModules (fileName file)
      /\ isDeclarationFile file = false
      /\ getCombinedCodeFix service name = [change]
      /\ getSourceFile program name = Some sourceFile
      /\ applyTextChanges createSourceFile (text sourceFile)
           (textChanges change) true li0
         = (Returned updatedText, li1)
      /\ (forall listed, files = Some listed ->
            exists g, In g listed /\ access g = true
                      /\ relative (getCurrentDirectory program) g = name).
Proof.
  unfold codefixProject.
  destruct (match files with Some _ => _ | None => _ end)
    as [allowed|t] eqn:Ef; [|intros []].
  destruct (createLanguageService tsconfig) as [service|t]; [|intros []].
  destruct (getProgram service) as [program|] eqn:Ep; [|intros []].
  destruct (genCodeFixesFromProject _ _ _ _) as [yielded thrown] eqn:Eg.
  pose proof (tasks_writes program write yielded li (name, updatedText)) as Ht.
  destruct (tasks _ _ program write yielded li) as [promises li'].
  cbn [fst writes]. intros Hin.
  destruct (Ht Hin) as (Hw & cf & sf & l0 & l1 & Hcf & Hs & Ha & Hn).
  cbn [fst snd] in *. split; [exact Hw|].
  unfold genCodeFixesFromProject in Eg.
  assert (Hy : In cf (fst (genLoop relative (getCombinedCodeFix service)
                             program
                             (match allowed with
                              | Some files0 =>
                                  Some (newSet
                                          (map (relative
                                                  (getCurrentDirectory program))
                                               files0))
                              | None => None
                              end) (getSourceFiles program))))
    by (rewrite Eg; exact Hcf).
  apply genLoop_yields in Hy as (f & Hf & Hr & Hfix).
  unfold fixOf, relativePathOf in Hfix.
  destruct (getCombinedCodeFix service _) as [|c [|c' more]] eqn:Ec;
    [destruct Hfix| |destruct Hfix].
  destruct Hfix as [<-|[]]. cbn [fixFileName fixTextChanges] in *.
  unfold reaches in Hr. apply andb_true_iff in Hr as [Hr Hset].
  apply andb_true_iff in Hr as [Hnode Hdecl].
  apply negb_true_iff in Hnode, Hdecl.
  exists service, program, f, c, sf, l0, l1.
  repeat split; trivial.
  - intros Hnm. apply testOnce_inNodeModules in Hnm. congruence.
  - now rewrite Hn.
  - now rewrite Hn.
  - intros listed ->.
    rewrite validateFiles_eq in Ef.
    destruct (firstSeen (filter access listed)) as [|v valid] eqn:Ev;
      [discriminate|].
    inversion Ef; subst allowed.
    unfold relativePathOf in Hset.
    apply set_has_In in Hset. rewrite newSet_firstSeen in Hset.
    apply firstSeen_In, in_map_iff in Hset as (g & Hg & Hin').
    rewrite <- Ev in Hin'. apply firstSeen_In, filter_In in Hin' as [Hl Ha'].
    exists g. repeat split; trivial. now rewrite Hn.
Qed.

(** X17: A fix for a file the program does not know is rejected and changes
    nothing for the others: the writes and the [lastIndex] the tasks end
    with are those of the run without such fixes. *)
Theorem missing_files_do_not_disturb
    (program : Program) (write : bool) (fixes : list CodeFix) (li : nat) :
  writesOf (fst (tasks getSourceFile createSourceFile program write fixes li))
  = writesOf (fst (tasks getSourceFile createSourceFile program write
                     (filter (present getSourceFile program) fixes) li))
  /\ snd (tasks getSourceFile createSourceFile program write fixes li)
     = snd (tasks getSourceFile createSourceFile program write
              (filter (present getSourceFile program) fixes) li)
  /\ forall codeFix,
      In codeFix fixes ->
      present getSourceFile program codeFix = false ->
      In (Rejected (PlainError (js "File " ++ fixFileName codeFix
                                ++ js " not found in project")))
         (fst (tasks getSourceFile createSourceFile program write fixes li)).
Proof.
  revert li. induction fixes as [|codeFix rest IH]; intros li.
  - repeat split. intros codeFix [].
  - cbn [filter].
    destruct (present getSourceFile program codeFix) eqn:Ep.
    + cbn [tasks].
      destruct (task getSourceFile createSourceFile program write codeFix li)
        as [promise li1].
      specialize (IH li1).
      destruct (tasks _ _ program write rest li1) as [ps l2].
      destruct (tasks _ _ program write (filter _ rest) li1) as [ps' l2'].
      cbn [fst snd] in *. rewrite !writesOf_cons.
      destruct IH as (H1 & H2 & H3).
      split; [now rewrite H1|]. split; [exact H2|].
      intros cf [<-|Hcf] Hp; [congruence|]. right. now apply H3.
    + cbn [tasks].
      assert (Et : task getSourceFile createSourceFile program write codeFix li
                   = (Rejected (PlainError (js "File " ++ fixFileName codeFix
                                            ++ js " not found in project")),
                      li)).
      { unfold task. unfold present in Ep.
        now destruct (getSourceFile program (fixFileName codeFix)). }
      rewrite Et. specialize (IH li).
      destruct (tasks _ _ program write rest li) as [ps l2].
      destruct (tasks _ _ program write (filter _ rest) li) as [ps' l2'].
      cbn [fst snd] in *. rewrite writesOf_cons. cbn [app].
      destruct IH as (H1 & H2 & H3).
      split; [exact H1|]. split; [exact H2|].
      intros cf [<-|Hcf] Hp; [now left|]. right. now apply H3.
Qed.

End CodefixProjectProperties.

(** ** Concrete runs *)

(** X2 on a concrete input. *)
Lemma applyTextChanges_undo_witness :
  exists T',
    applyTextChanges lineParser (js "let x = 1;") [mkChange 4 1 (js "total")]
      false 0%nat
    = (Returned T', 0%nat)
    /\ applyTextChanges lineParser T'
         [inverseChange (js "let x = 1;") (mkChange 4 1 (js "total"))]
         false 0%nat
       = (Returned (js "let x = 1;"), 0%nat).
Proof.
  apply (applyTextChanges_undo lineParser (js "let x = 1;")
           (mkChange 4 1 (js "total")) 0%nat).
  vm_compute. repeat split; discriminate.
Defined.

(** X3 on a concrete input. *)
Lemma applyTextChanges_length_witness :
  exists T',
    applyTextChanges lineParser (js "let x = 1;")
      [mkChange 4 1 (js "total"); mkChange 8 1 []] false 0%nat
    = (Returned T', 0%nat)
    /\ strlen T' = strlen (js "let x = 1;") + 3.
Proof.
  apply (applyTextChanges_length lineParser (js "let x = 1;")
           [mkChange 4 1 (js "total"); mkChange 8 1 []] 0%nat).
  vm_compute. repeat split; discriminate.
Defined.

(** X4 on a concrete input. *)
Lemma applyTextChanges_any_span_witness :
  applyTextChanges lineParser (js "ab") [mkChange 5 3 (js "c")] false 0%nat
  = (Returned (js "abc"), 0%nat)
  /\ applyTextChanges lineParser (js "ab") [mkChange (-4) 2 (js "c")] false 0%nat
     = (Returned (js "cab"), 0%nat).
Proof.
  split.
  - apply (proj1 (proj2 (applyTextChanges_any_span lineParser (js "ab")
                           (mkChange 5 3 (js "c")) 0%nat)));
      vm_compute; discriminate.
  - apply (proj2 (proj2 (applyTextChanges_any_span lineParser (js "ab")
                           (mkChange (-4) 2 (js "c")) 0%nat)));
      vm_compute; discriminate.
Defined.

(** X5 on a concrete input. *)
Lemma imports_inserted_whole_witness :
  exists before after,
    applyTextChanges lineParser twoLines twoEdits true 0%nat
    = (Returned (before
                 ++ importBlock [(js "pkg/mod", [js "Bar"; js "Foo"])]
                 ++ after), 0%nat)
    /\ before ++ after
       = js "import a from 'a';" ++ [newline]
         ++ js "const x: Foo = f(), y: Bar = g();".
Proof.
  apply (imports_inserted_whole lineParser twoLines twoEdits true 0%nat
           (js "import a from 'a';" ++ [newline]
            ++ js "const x: Foo = f(), y: Bar = g();")
           [(js "pkg/mod", [js "Bar"; js "Foo"])] 0%nat
           {| kind := ImportDeclaration; pos := 0; end_ := 18 |}).
  - vm_compute. reflexivity.
  - discriminate.
  - vm_compute. reflexivity.
Defined.

(** X6 on a concrete input. *)
Lemma editLoop_ascending_rewrite_witness :
  editLoop (applyTextChanges lineParser) true twoLines twoEdits 7%nat
  = (Returned (js "import a from 'a';" ++ [newline]
               ++ js "const x: Foo = f(), y: Bar = g();",
               [(js "pkg/mod", [js "Bar"; js "Foo"])]), 0%nat)
  /\ applyTextChanges lineParser twoLines twoEdits true 7%nat
     = applyTextChanges lineParser twoLines twoEdits true 0%nat.
Proof.
  apply (editLoop_ascending_rewrite lineParser twoLines twoEdits 7%nat).
  - vm_compute. repeat split; discriminate.
  - intros e [<-|[<-|[]]]; apply noDynamicReference_exec; vm_compute;
      reflexivity.
  - discriminate.
Defined.

(** X7 on a concrete input. *)
Lemma imports_without_repetition_witness :
  NoDup (map fst [(js "pkg/mod", [js "Bar"; js "Foo"])])
  /\ forall module types,
      In (module, types) [(js "pkg/mod", [js "Bar"; js "Foo"])] ->
      types <> [] /\ NoDup types.
Proof.
  apply (imports_without_repetition lineParser twoLines twoEdits true 0%nat
           (js "import a from 'a';" ++ [newline]
            ++ js "const x: Foo = f(), y: Bar = g();")
           [(js "pkg/mod", [js "Bar"; js "Foo"])] 0%nat).
  vm_compute. reflexivity.
Defined.

(** X8 on a concrete input. *)
Lemma imports_come_from_references_witness :
  exists e i,
    In e twoEdits
    /\ dynamicReferenceAt (newText e) i (js "pkg/mod") (js "Bar").
Proof.
  apply (imports_come_from_references lineParser twoLines twoEdits true 0%nat
           (js "import a from 'a';" ++ [newline]
            ++ js "const x: Foo = f(), y: Bar = g();")
           [(js "pkg/mod", [js "Bar"; js "Foo"])] 0%nat
           (js "pkg/mod") [js "Bar"; js "Foo"] (js "Bar")).
  - vm_compute. reflexivity.
  - now left.
  - now left.
Defined.

(** X10 on a concrete input. *)
Lemma genCodeFixesFromProject_in_full_witness :
  genCodeFixesFromProject sampleRelative
    (sampleProgram [sampleFile "src/a.ts"; sampleFile "src/empty.ts";
                    sampleFile "node_modules/m/index.ts";
                    sampleFile "src/b.ts"])
    sampleService None
  = ([ {| fixFileName := js "src/a.ts";
          fixTextChanges := textChanges sampleChange |};
       {| fixFileName := js "src/b.ts";
          fixTextChanges := textChanges sampleChange |} ], None)
  /\ genCodeFixesFromProject sampleRelative
       (sampleProgram [sampleFile "src/a.ts"; sampleFile "src/twice.ts";
                       sampleFile "src/b.ts"])
       sampleService None
     = ([ {| fixFileName := js "src/a.ts";
             fixTextChanges := textChanges sampleChange |} ],
        Some (AssertionError
                (Some (js "Multiple fixes found for src/twice.ts")))).
Proof.
  split.
  - refine (eq_trans
              (proj1 (genCodeFixesFromProject_in_full sampleRelative
                        sampleService
                        {| getSourceFiles :=
                             [sampleFile "src/a.ts"; sampleFile "src/empty.ts";
                              sampleFile "node_modules/m/index.ts";
                              sampleFile "src/b.ts"];
                           getCurrentDirectory := js "/repo" |} None) _) _).
    + vm_compute. reflexivity.
    + vm_compute. reflexivity.
  - refine (eq_trans
              (proj2 (genCodeFixesFromProject_in_full sampleRelative
                        sampleService
                        {| getSourceFiles :=
                             [sampleFile "src/a.ts"; sampleFile "src/twice.ts";
                              sampleFile "src/b.ts"];
                           getCurrentDirectory := js "/repo" |} None)
                 [sampleFile "src/a.ts"] (sampleFile "src/twice.ts")
                 [sampleFile "src/b.ts"] _ _ _) _).
    + vm_compute. reflexivity.
    + vm_compute. reflexivity.
    + vm_compute. reflexivity.
    + vm_compute. reflexivity.
Defined.

(** X11 on a concrete input. *)
Lemma genCodeFixesFromProject_leaves_out_witness :
  genCodeFixesFromProject sampleRelative
    (sampleProgram ([sampleFile "src/a.ts"]
                    ++ sampleFile "node_modules/m/index.ts"
                    :: [sampleFile "src/b.ts"]))
    sampleService None
  = genCodeFixesFromProject sampleRelative
      (sampleProgram ([sampleFile "src/a.ts"] ++ [sampleFile "src/b.ts"]))
      sampleService None.
Proof.
  apply (genCodeFixesFromProject_leaves_out sampleRelative sampleService
           (js "/repo") None [sampleFile "src/a.ts"] [sampleFile "src/b.ts"]
           (sampleFile "node_modules/m/index.ts")).
  left. exists (js "/repo"), 47%N, 47%N, (js "m/index.ts").
  repeat split; reflexivity.
Defined.

(** X13 on a concrete input. *)
Lemma validateFiles_partition_witness :
  (forall f, In f [js "/repo/src/a.ts"]
             <-> In f [js "/repo/src/a.ts"; js "/repo/src/gone.ts";
                       js "/repo/src/a.ts"]
                 /\ sampleAccess f = true)
  /\ (forall f, In f [js "/repo/src/gone.ts"]
                <-> In f [js "/repo/src/a.ts"; js "/repo/src/gone.ts";
                          js "/repo/src/a.ts"]
                    /\ sampleAccess f = false)
  /\ NoDup [js "/repo/src/a.ts"] /\ NoDup [js "/repo/src/gone.ts"]
  /\ [js "/repo/src/a.ts"] <> [].
Proof.
  apply (validateFiles_partition sampleAccess
           [js "/repo/src/a.ts"; js "/repo/src/gone.ts"; js "/repo/src/a.ts"]
           [js "/repo/src/a.ts"] [js "/repo/src/gone.ts"]).
  vm_compute. reflexivity.
Defined.

(** X15 on a concrete input. *)
Lemma all_files_invalid_witness :
  codefixProject sampleAccess sampleRelative sampleLanguageService
    sampleGetSourceFile lineParser (js "tsconfig.json")
    (Some [js "/repo/src/gone.ts"]) true 5%nat
  = ({| writes := [];
        rejection := Some (PlainError (js "All provided files are invalid")) |},
     5%nat).
Proof.
  apply (all_files_invalid sampleAccess sampleRelative sampleLanguageService
           sampleGetSourceFile lineParser (js "tsconfig.json")
           [js "/repo/src/gone.ts"] true 5%nat).
  intros f [<-|[]]. vm_compute. reflexivity.
Defined.

(** X16 on a concrete input. *)
Lemma writes_only_where_asked_witness :
  true = true
  /\ exists service program file change sourceFile li0 li1,
      sampleLanguageService (js "tsconfig.json") = Fulfilled service
      /\ getProgram service = Some program
      /\ In file (getSourceFiles program)
      /\ js "src/b.ts" = sampleRelative (getCurrentDirectory program)
                                        (fileName file)
      /\ ~ inNodeModules (fileName file)
      /\ isDeclarationFile file = false
      /\ getCombinedCodeFix service (js "src/b.ts") = [change]
      /\ sampleGetSourceFile program (js "src/b.ts") = Some sourceFile
      /\ applyTextChanges lineParser (text sourceFile) (textChanges change)
           true li0
         = (Returned (js ": number"), li1)
      /\ (forall listed,
            Some [js "/repo/src/b.ts"; js "/repo/src/gone.ts"] = Some listed ->
            exists g, In g listed /\ sampleAccess g = true
                      /\ sampleRelative (getCurrentDirectory program) g
                         = js "src/b.ts").
Proof.
  apply (writes_only_where_asked sampleAccess sampleRelative
           sampleLanguageService sampleGetSourceFile lineParser
           (js "tsconfig.json")
           (Some [js "/repo/src/b.ts"; js "/repo/src/gone.ts"]) true 0%nat
           (js "src/b.ts") (js ": number")).
  vm_compute. left. reflexivity.
Defined.
